(** * BinaryView: a shallow embedding of python/binaryview.py

  The Python layer is a thin shell over the native analysis core.  What
  the Python code itself decides (guards, exception clauses, index
  arithmetic, callback wrappers, the polling loop of the streaming
  search) is embedded definition by definition.  Native entry points
  that the Python code calls are either parameters or small models whose
  doc comment says where their behaviour is taken from. *)

From stdpp Require Import base option list gmap strings.
From Stdlib Require Import ZArith Lia.

Local Open Scope Z_scope.

(** ** Python values, exceptions and fallible results *)

Module Py.

(** The exception classes that occur in the embedded code. *)
Inductive exn_class :=
| BaseException | KeyboardInterrupt | Exception
| OSError | FileNotFoundError
| ArithmeticError | OverflowError
| ValueError | IndexError | TypeError | AttributeError
| SyntaxError | AssertionError | StopIteration.

#[global] Instance exn_class_eq_dec : EqDecision exn_class.
Proof. solve_decision. Defined.

(** Direct base class, following the built-in hierarchy. *)
Definition base_of (c : exn_class) : option exn_class :=
  match c with
  | BaseException => None
  | KeyboardInterrupt | Exception => Some BaseException
  | FileNotFoundError => Some OSError
  | OverflowError => Some ArithmeticError
  | OSError | ArithmeticError | ValueError | IndexError | TypeError
  | AttributeError | SyntaxError | AssertionError | StopIteration => Some Exception
  end.

(** [c] or one of its bases, at most [fuel] levels up, is [d]. *)
Fixpoint reaches (fuel : nat) (c d : exn_class) : bool :=
  bool_decide (c = d)
  || match fuel with
     | O => false
     | S k =>
         match base_of c with
         | None => false
         | Some b => reaches k b d
         end
     end.

(** [issubclass(c, d)]: the hierarchy above is four levels deep. *)
Definition issubclass (c d : exn_class) : bool := reaches 4 c d.

Record exn := mk_exn { exn_cls : exn_class; exn_msg : string }.

Definition class_name (c : exn_class) : string :=
  match c with
  | BaseException => "BaseException" | KeyboardInterrupt => "KeyboardInterrupt"
  | Exception => "Exception" | OSError => "OSError"
  | FileNotFoundError => "FileNotFoundError" | ValueError => "ValueError"
  | ArithmeticError => "ArithmeticError" | OverflowError => "OverflowError"
  | IndexError => "IndexError" | TypeError => "TypeError"
  | AttributeError => "AttributeError" | SyntaxError => "SyntaxError"
  | AssertionError => "AssertionError" | StopIteration => "StopIteration"
  end.

(** [traceback.format_exc()], reduced to its last line. *)
Definition format_exc (e : exn) : string :=
  class_name (exn_cls e) +:+ ": " +:+ exn_msg e.

(** The outcome of a call: a value, or a raised exception. *)
Inductive result (A : Type) :=
| Return (a : A)
| Raise (e : exn).
Arguments Return {A} a.
Arguments Raise {A} e.

Definition bind {A B} (r : result A) (k : A -> result B) : result B :=
  match r with
  | Return a => k a
  | Raise e => Raise e
  end.

(** An [except] clause: bare, or naming one class. *)
Inductive except_clause :=
| ExceptAll
| ExceptClass (c : exn_class).

Definition catches (cl : except_clause) (e : exn) : bool :=
  match cl with
  | ExceptAll => true
  | ExceptClass c => issubclass (exn_cls e) c
  end.

End Py.

(** ** BinaryDataNotificationCallbacks *)

Module Notify.
Import Py.

(** One constructor per callback slot filled in
    [BinaryDataNotificationCallbacks.__init__]. *)
Inductive event_kind :=
| data_written | data_inserted | data_removed
| function_added | function_removed | function_updated
| function_update_requested
| data_var_added | data_var_removed | data_var_updated
| data_metadata_updated
| tag_type_updated | tag_added | tag_updated | tag_removed
| symbol_added | symbol_updated | symbol_removed
| string_found | string_removed
| type_defined | type_undefined | type_ref_changed.

#[global] Instance event_kind_eq_dec : EqDecision event_kind.
Proof. solve_decision. Defined.

Definition all_kinds : list event_kind :=
  [ data_written; data_inserted; data_removed;
    function_added; function_removed; function_updated;
    function_update_requested;
    data_var_added; data_var_removed; data_var_updated;
    data_metadata_updated;
    tag_type_updated; tag_added; tag_updated; tag_removed;
    symbol_added; symbol_updated; symbol_removed;
    string_found; string_removed;
    type_defined; type_undefined; type_ref_changed ].

(** The arguments the core hands to a callback: plain integers and
    native handles. *)
Definition payload := list Z.

(** What can be observed of a delivery: the lines sent to
    [log.log_error], and which observer methods were entered. *)
Record world := mk_world {
  diag_log : list string;
  calls : list (nat * event_kind * payload)
}.

Definition log_error (s : string) (w : world) : world :=
  mk_world (diag_log w ++ [s]) (calls w).

Definition enter (who : nat) (k : event_kind) (p : payload) (w : world) : world :=
  mk_world (diag_log w) (calls w ++ [(who, k, p)]).

(** A [BinaryDataNotification] subclass: for each method, whether it
    returns or raises. *)
Record BinaryDataNotification := mk_observer {
  obs_id : nat;
  obs_method : event_kind -> payload -> result unit
}.

(** The statements of a wrapper's [try] body that precede the call of
    the observer method: wrapping native handles into Python objects.
    The offset/length wrappers have none; for the others the wrapping is
    done by constructors outside this file, passed as [wrap]. *)
Definition marshal (wrap : event_kind -> payload -> result payload)
    (k : event_kind) (p : payload) : result payload :=
  match k with
  | data_written | data_inserted | data_removed | data_metadata_updated => Return p
  | _ => wrap k p
  end.

(** The [except] clause each wrapper is written with. *)
Definition clause_of (k : event_kind) : except_clause :=
  match k with
  | data_written => ExceptClass OSError
  | _ => ExceptAll
  end.

(** [try: body  except <clause>: log.log_error(traceback.format_exc())] *)
Definition try_log (cl : except_clause) (body : world -> result unit * world)
    (w : world) : result unit * world :=
  match body w with
  | (Return tt, w') => (Return tt, w')
  | (Raise e, w') =>
      if catches cl e then (Return tt, log_error (format_exc e) w')
      else (Raise e, w')
  end.

(** The wrapper registered for kind [k]: [_data_written],
    [_data_inserted], ..., [_type_ref_changed]. *)
Definition callback (wrap : event_kind -> payload -> result payload)
    (notify : BinaryDataNotification) (k : event_kind) (p : payload)
    : world -> result unit * world :=
  try_log (clause_of k)
    (fun w =>
       match marshal wrap k p with
       | Raise e => (Raise e, w)
       | Return args => (obs_method notify k args, enter (obs_id notify) k args w)
       end).

Definition _data_written := fun wrap notify => callback wrap notify data_written.
Definition _data_inserted := fun wrap notify => callback wrap notify data_inserted.
Definition _data_removed := fun wrap notify => callback wrap notify data_removed.

(** Modelled from the spec: the native delivery loop behind
    [BNRegisterDataNotification].  It calls the wrapper of every
    registered observer, in registration order, and a failing observer
    does not stop it.  Exceptions that leave a wrapper are collected in
    the first component: they did not reach the diagnostic log. *)
Fixpoint deliver (wrap : event_kind -> payload -> result payload)
    (observers : list BinaryDataNotification) (k : event_kind) (p : payload)
    (w : world) : list exn * world :=
  match observers with
  | [] => ([], w)
  | o :: rest =>
      let '(r, w1) := callback wrap o k p w in
      let '(escaped, w2) := deliver wrap rest k p w1 in
      (match r with Return _ => escaped | Raise e => e :: escaped end, w2)
  end.

(** An observer all of whose methods raise [e]. *)
Definition always_raises (id : nat) (e : exn) : BinaryDataNotification :=
  mk_observer id (fun _ _ => Raise e).

(** An observer all of whose methods return. *)
Definition well_behaved (id : nat) : BinaryDataNotification :=
  mk_observer id (fun _ _ => Return tt).

End Notify.

(** ** BinaryView: reads, indexing and the overridable [perform_*] methods *)

Module View.
Import Py.

Definition bytes := list Byte.byte.

(** A segment maps the virtual range [[vstart, vend)] onto backing
    data; addresses past the backing data read as zero. *)
Record Segment := mk_segment {
  vstart : Z;
  vend : Z;
  backing : bytes
}.

(** What the Python layer asks the native view for: [BNGetStartOffset],
    [BNGetEndOffset] and [BNGetViewLength] return unsigned 64-bit
    values, hence [N]. *)
Record CoreView := mk_view {
  BNGetStartOffset : N;
  BNGetEndOffset : N;
  BNGetViewLength : N;
  segments : list Segment
}.

Definition in_segment (s : Segment) (a : Z) : bool :=
  (vstart s <=? a) && (a <? vend s).

(** Modelled from the spec: the native [BNIsValidOffset], which the
    Python sources only call.  An address is valid iff it falls within
    some segment's [[vstart, vend)]. *)
Definition BNIsValidOffset (v : CoreView) (a : Z) : bool :=
  existsb (fun s => in_segment s a) (segments v).

(** Modelled from the spec: the native mapping of addresses to bytes
    behind [BNReadViewBuffer].  The byte mapped at an address, with
    trailing zero fill where the backing data is shorter than the
    virtual range; [None] outside all segments. *)
Fixpoint byte_at (segs : list Segment) (a : Z) : option Byte.byte :=
  match segs with
  | [] => None
  | s :: rest =>
      if in_segment s a
      then Some (nth (Z.to_nat (a - vstart s)) (backing s) Byte.x00)
      else byte_at rest a
  end.

Fixpoint mapped_prefix (segs : list Segment) (a : Z) (n : nat) : bytes :=
  match n with
  | O => []
  | S k =>
      match byte_at segs a with
      | None => []
      | Some b => b :: mapped_prefix segs (a + 1) k
      end
  end.

(** Modelled from the spec: the native [BNReadViewBuffer], which the
    Python sources only call.  It returns the contiguous mapped prefix
    of the requested range. *)
Definition BNReadViewBuffer (v : CoreView) (addr length : Z) : bytes :=
  mapped_prefix (segments v) addr (Z.to_nat length).

(** The native calls a Python method made, in order. *)
Inductive core_call :=
| CallReadViewBuffer (addr length : Z).

(** [BinaryView.read]: the outcome together with the native calls made. *)
Definition read (v : CoreView) (addr length : Z) : result bytes * list core_call :=
  if (addr <? 0) || (length <? 0)
  then (Raise (mk_exn ValueError "length and address must both be positive"), [])
  else (Return (BNReadViewBuffer v addr length), [CallReadViewBuffer addr length]).

(** The properties [start], [end] and [__len__]. *)
Definition start (v : CoreView) : Z := Z.of_N (BNGetStartOffset v).
Definition end_ (v : CoreView) : Z := Z.of_N (BNGetEndOffset v).

(** [sys.maxsize] on a 64-bit build. *)
Definition maxsize : Z := 2 ^ 63 - 1.

Definition __len__ (v : CoreView) : Z := Z.of_N (BNGetViewLength v).

(** The built-in [len(self)]: it calls [__len__] and refuses a length
    above [sys.maxsize]. *)
Definition len (v : CoreView) : result Z :=
  let n := __len__ v in
  if n <=? maxsize then Return n
  else Raise (mk_exn OverflowError "cannot fit 'int' into an index-sized integer").

(** *** [__getitem__] *)

#[warnings="-register-all"] Inductive index :=
| IdxInt (i : Z)
| IdxSlice (lo hi step : option Z)
| IdxTuple (items : list index).

(** One bound of [slice.indices(length)] for a slice without step:
    a negative bound counts from [length], then the bound is clamped
    into [[0, length]]. *)
Definition clamp_bound (length : Z) (dflt : Z) (b : option Z) : Z :=
  match b with
  | None => dflt
  | Some x =>
      if x <? 0
      then (if x + length <? 0 then 0 else x + length)
      else (if length <? x then length else x)
  end.

Definition slice_indices (lo hi : option Z) (length : Z) : Z * Z :=
  (clamp_bound length 0 lo, clamp_bound length length hi).

Definition read_one (v : CoreView) (a : Z) : result bytes :=
  bind (read v a 1).1
    (fun value =>
       if Nat.eqb (length value) 0
       then Raise (mk_exn IndexError "index not readable")
       else Return value).

Fixpoint __getitem__ (v : CoreView) (i : index) : result bytes :=
  match i with
  | IdxTuple items =>
      (fix loop (acc : bytes) (l : list index) : result bytes :=
         match l with
         | [] => Return acc
         | s :: rest => bind (__getitem__ v s) (fun x => loop (acc ++ x) rest)
         end) [] items
  | IdxSlice lo hi step =>
      match step with
      | Some _ => Raise (mk_exn IndexError "step not implemented")
      | None =>
          let '(start_, stop) := slice_indices lo hi (end_ v) in
          if stop <=? start_ then Return []
          else (read v start_ (stop - start_)).1
      end
  | IdxInt i =>
      if i <? 0 then
        bind (len v) (fun n =>
          if - n <=? i then bind (len v) (fun n' => read_one v (n' + i))
          else Raise (mk_exn IndexError "index out of range"))
      else if (start v <=? i) && (i <? end_ v) then read_one v i
      else Raise (mk_exn IndexError "index out of range")
  end.

(** *** The overridable methods and their callback wrappers *)

(** The default [perform_get_start]. *)
Definition perform_get_start : result Z := Return 0.

(** [perform_get_next_valid_offset].  [self_get_start] is the outcome of
    [self.perform_get_start()], the default above or a subclass's own. *)
Definition perform_get_next_valid_offset (self_get_start : result Z)
    (addr : Z) : result Z :=
  bind self_get_start
    (fun s => if addr <? s then self_get_start else Return addr).

(** [_get_next_valid_offset]: the value handed back to the core and the
    lines logged. *)
Definition _get_next_valid_offset (self_get_start : result Z)
    (offset : Z) : Z * list string :=
  match perform_get_next_valid_offset self_get_start offset with
  | Return r => (r, [])
  | Raise e => (offset, [format_exc e])
  end.

(** For each non-empty segment that ends above [addr], the first of its
    addresses at or above [addr]. *)
Definition candidates (v : CoreView) (addr : Z) : list Z :=
  map (fun s => Z.max addr (vstart s))
      (filter (fun s => bool_decide (addr < vend s ∧ vstart s < vend s)) (segments v)).

(** The smallest valid address at or above [addr], or the view's end
    when there is none: the wording of the specification, for
    comparison with the code above. *)
Definition spec_next_valid_offset (v : CoreView) (addr : Z) : Z :=
  match candidates v addr with
  | [] => end_ v
  | c :: cs => foldr Z.min c cs
  end.

Definition perform_insert (addr : Z) (data : bytes) : result Z := Return 0.
Definition perform_remove (addr : Z) (length : Z) : result Z := Return 0.

(** The methods of a view class that the insert and remove paths
    dispatch on. *)
Record Backend := mk_backend {
  do_insert : Z -> bytes -> result Z;
  do_remove : Z -> Z -> result Z
}.

(** A view class that overrides neither method. *)
Definition default_backend : Backend := mk_backend perform_insert perform_remove.

(** [_insert] and [_remove]: value handed to the core, and lines logged. *)
Definition _insert (b : Backend) (offset : Z) (data : bytes) : Z * list string :=
  match do_insert b offset data with
  | Return n => (n, [])
  | Raise e => (0, [format_exc e])
  end.

Definition _remove (b : Backend) (offset length : Z) : Z * list string :=
  match do_remove b offset length with
  | Return n => (n, [])
  | Raise e => (0, [format_exc e])
  end.

(** The argument of [insert]: what [isinstance] distinguishes. *)
Inductive pydata :=
| PyBytes (b : bytes)
| PyByteArray (b : bytes)
| PyStr (s : string)
| PyOther.

Definition str_bytes (s : string) : bytes :=
  map (fun c => default Byte.x00 (Byte.of_N (Ascii.N_of_ascii c)))
      (String.list_ascii_of_string s).

(** The callbacks a view implemented in Python registers with the core
    ([self._cb.insert], [self._cb.remove]), as the core sees them. *)
Definition registered_insert (b : Backend) : Z -> bytes -> Z :=
  fun offset data => (_insert b offset data).1.

Definition registered_remove (b : Backend) : Z -> Z -> Z :=
  fun offset length => (_remove b offset length).1.

(** [insert] and [remove], over the native entry points they call. *)
Definition insert (BNInsertViewBuffer : Z -> bytes -> Z) (addr : Z) (data : pydata)
    : result Z :=
  match data with
  | PyBytes bs | PyByteArray bs => Return (BNInsertViewBuffer addr bs)
  | PyStr s => Return (BNInsertViewBuffer addr (str_bytes s))
  | PyOther => Raise (mk_exn TypeError "Must be bytes, bytearray, or str")
  end.

Definition remove (BNRemoveViewData : Z -> Z -> Z) (addr length : Z) : result Z :=
  Return (BNRemoveViewData addr length).

(** The view of the gap scenario: segments [[0x1000,0x1010)] and
    [[0x2000,0x2010)] only. *)
Definition two_segments : CoreView :=
  mk_view 0x1000 0x2010 0x1010
    [ mk_segment 0x1000 0x1010 (repeat Byte.x41 16);
      mk_segment 0x2000 0x2010 (repeat Byte.x42 16) ].

End View.

(** ** AnalysisCompletionEvent *)

Module Completion.
Import Py.

(** What [inspect] reports of a callable, and what calling it does. *)
Record callable := mk_callable {
  ismethod : bool;
  nargs : nat;          (* len(inspect.getargspec(f).args) *)
  outcome : result unit (* of running its body *)
}.

(** Calling [f] with [k] positional arguments: the body runs when the
    count fits the signature, otherwise the call is a [TypeError]. *)
Definition accepts (f : callable) (k : nat) : bool :=
  Nat.eqb (k + (if ismethod f then 1 else 0)) (nargs f).

Definition call (f : callable) (k : nat) : result unit :=
  if accepts f k then outcome f
  else Raise (mk_exn TypeError "wrong number of positional arguments").

(** The attribute [self.callback] holds either the callback given to
    [__init__] or the bound method [self._empty_callback]. *)
Inductive callback_ref :=
| Original
| EmptyCallback.

(** [_empty_callback]: a bound method whose only argument is [self]. *)
Definition _empty_callback : callable := mk_callable true 1 (Return tt).

Record state := mk_state {
  callback : callback_ref;
  pending : gset nat;     (* keys of _pending_analysis_completion_events *)
  armed : bool;           (* the core still holds the event for firing *)
  invoked : nat;          (* calls of the original callback so far *)
  log : list string
}.

Definition deref (user : callable) (r : callback_ref) : callable :=
  match r with
  | Original => user
  | EmptyCallback => _empty_callback
  end.

(** Bookkeeping: one more run of the original callback's body. *)
Definition count_call (r : callback_ref) (ran : bool) (s : state) : state :=
  match r with
  | Original =>
      if ran then mk_state (callback s) (pending s) (armed s) (S (invoked s)) (log s)
      else s
  | EmptyCallback => s
  end.

Definition log_error (line : string) (s : state) : state :=
  mk_state (callback s) (pending s) (armed s) (invoked s) (log s ++ [line]).

Definition forget (id : nat) (s : state) : state :=
  mk_state (callback s) (pending s ∖ {[id]}) (armed s) (invoked s) (log s).

(** [__init__]: the state right after
    [BinaryView.add_analysis_completion_event(callback)]. *)
Definition __init__ (id : nat) (others : gset nat) : state :=
  mk_state Original ({[id]} ∪ others) true 0 [].

(** [_notify]: drop the event from the pending table, then call
    [self.callback] with or without the event, inside [try/except:]. *)
Definition _notify (user : callable) (id : nat) (s : state) : state :=
  let s1 := forget id s in
  let f := deref user (callback s1) in
  let arg_offset := if ismethod f then 1%nat else 0%nat in
  let k := if (arg_offset <? nargs f)%nat then 1%nat else 0%nat in
  let s2 := count_call (callback s1) (accepts f k) s1 in
  match call f k with
  | Return _ => s2
  | Raise e => log_error (format_exc e) s2
  end.

(** Modelled from the spec: the native [BNCancelAnalysisCompletionEvent],
    which the Python sources only call.  The core holds a completion
    event until it fires or is cancelled; cancelling releases it without
    firing. *)
Definition BNCancelAnalysisCompletionEvent (s : state) : state :=
  mk_state (callback s) (pending s) false (invoked s) (log s).

(** [cancel] *)
Definition cancel (id : nat) (s : state) : state :=
  let s1 := mk_state EmptyCallback (pending s) (armed s) (invoked s) (log s) in
  forget id (BNCancelAnalysisCompletionEvent s1).

(** Modelled from the spec: the native scheduler reaching completion.
    A held event is fired once, by calling the function registered with
    [BNAddAnalysisCompletionEvent]; firing releases it. *)
Definition complete (user : callable) (id : nat) (s : state) : state :=
  if armed s
  then _notify user id (mk_state (callback s) (pending s) false (invoked s) (log s))
  else s.

(** Modelled from the spec: the native [BNAbortAnalysis].  Aborting
    either fires the held events or drops them, by policy; either way
    they are released. *)
Definition BNAbortAnalysis (fires : bool) (user : callable) (id : nat) (s : state) : state :=
  if fires then complete user id s else BNCancelAnalysisCompletionEvent s.

(** [BinaryView.abort_analysis] *)
Definition abort_analysis (fires : bool) (user : callable) (id : nat) (s : state) : state :=
  BNAbortAnalysis fires user id s.

Inductive action :=
| Complete
| Cancel
| Abort.

Definition step (fires : bool) (user : callable) (id : nat) (s : state) (a : action) : state :=
  match a with
  | Complete => complete user id s
  | Cancel => cancel id s
  | Abort => abort_analysis fires user id s
  end.

Definition run (fires : bool) (user : callable) (id : nat) (s : state) (tr : list action) : state :=
  foldl (step fires user id) s tr.

(** Once the callback has run, the event is neither held by the core nor
    listed in the pending table. *)
Definition settled (id : nat) (s : state) : Prop :=
  (invoked s = 0)%nat ∨ ((id ∉ pending s) ∧ armed s = false).

End Completion.

(** ** Searching: [find_all_data] and [QueueGenerator] *)

Module Search.
Import Py View.

(** The values a user callback may hand back. *)
Inductive pyval :=
| PyNone
| PyBool (b : bool)
| PyInt (z : Z)
| PyObject.

(** [x is False] *)
Definition is_False (x : pyval) : bool :=
  match x with
  | PyBool false => true
  | _ => false
  end.

(** Truth value, as taken when a result is converted to [c_bool]. *)
Definition truthy (x : pyval) : bool :=
  match x with
  | PyNone => false
  | PyBool b => b
  | PyInt z => negb (z =? 0)
  | PyObject => true
  end.

Inductive FindFlag :=
| FindCaseSensitive
| FindCaseInsensitive.

(** The [flags] argument: a [FindFlag] or something else. *)
Inductive pyflags :=
| Flags (f : FindFlag)
| NotFlags.

(** What the native scan of a range comes across, in order: progress
    reports and hits. *)
Inductive scan_event :=
| Progress (cur total : Z)
| Hit (addr : Z) (m : bytes).

Definition hits (scan : list scan_event) : list (Z * bytes) :=
  omap (fun ev => match ev with Hit a m => Some (a, m) | Progress _ _ => None end) scan.

(** The part of a scan the search gets to: what precedes the first
    progress report that is answered false. *)
Fixpoint reached (scan : list scan_event) (continue_ : Z -> Z -> bool)
    : list scan_event :=
  match scan with
  | [] => []
  | Progress cur total :: rest =>
      if continue_ cur total then Progress cur total :: reached rest continue_ else []
  | Hit addr m :: rest => Hit addr m :: reached rest continue_
  end.

(** Modelled from the spec: the native [BNFindAllDataWithProgress],
    which the Python sources only call.  It reports
    progress and hits in order, stops as soon as a callback answers
    false, and returns whether at least one match was found.  The second
    component lists the calls made to the match callback. *)
Fixpoint BNFindAllDataWithProgress (scan : list scan_event)
    (progress : Z -> Z -> bool) (on_match : Z -> bytes -> bool)
    : bool * list (Z * bytes) :=
  match scan with
  | [] => (false, [])
  | Progress cur total :: rest =>
      if progress cur total
      then BNFindAllDataWithProgress rest progress on_match
      else (false, [])
  | Hit addr m :: rest =>
      if on_match addr m
      then (true, (addr, m) :: (BNFindAllDataWithProgress rest progress on_match).2)
      else (true, [(addr, m)])
  end.

(** [progress_func_obj]: the user's function, or the constant [True]. *)
Definition progress_func_obj (progress_func : option (Z -> Z -> pyval))
    : Z -> Z -> bool :=
  match progress_func with
  | Some f => fun cur total => truthy (f cur total)
  | None => fun _ _ => true
  end.

(** [not match_callback(addr, match) is False] *)
Definition match_callback_obj (match_callback : Z -> bytes -> pyval)
    : Z -> bytes -> bool :=
  fun addr m => negb (is_False (match_callback addr m)).

(** *** The streaming form *)

Section Generator.
Context {A : Type}.

(** Where the consumer stands inside [__next__]. *)
Inductive pc :=
| Idle                (* no call of [__next__] in progress, none made yet *)
| AtEmpty             (* about to test [self.results.empty()] *)
| AtGet               (* about to run [self.results.get()] *)
| AtAlive             (* about to test [self.thread.is_alive()] *)
| AtEmptyAgain        (* thread seen dead; about to test [empty()] again *)
| Returned (x : A)    (* [__next__] returned [x] *)
| Stopped.            (* [__next__] raised [StopIteration] *)

(** A [QueueGenerator] with its thread and queue.  [todo] is what the
    worker thread has still to come across; [published] and [delivered]
    record history. *)
Record QueueGenerator := mk_gen {
  alive : bool;
  todo : list (option A);    (* [Some x]: a hit; [None]: cancelled by progress *)
  results : list A;
  where_ : pc;
  published : list A;
  delivered : list A
}.

(** [QueueGenerator(t, results)]: the thread is started, the queue empty. *)
Definition __init__ (work : list (option A)) : QueueGenerator :=
  mk_gen true work [] Idle [] [].

(** One step of the worker thread: the match callback
    [results.put(...) or True] on a hit, or the end of the native call,
    after which the thread is no longer alive. *)
Definition worker_step (g : QueueGenerator) : QueueGenerator :=
  if alive g then
    match todo g with
    | Some x :: rest =>
        mk_gen true rest (results g ++ [x]) (where_ g) (published g ++ [x]) (delivered g)
    | None :: _ | [] =>
        mk_gen false [] (results g) (where_ g) (published g) (delivered g)
    end
  else g.

Definition goto (p : pc) (g : QueueGenerator) : QueueGenerator :=
  mk_gen (alive g) (todo g) (results g) p (published g) (delivered g).

(** [QueueGenerator.__next__], one queue or thread operation at a time;
    when no call is in progress the step enters a new call. *)
Definition __next__ (g : QueueGenerator) : QueueGenerator :=
  match where_ g with
  | Idle | Returned _ | Stopped => goto AtEmpty g
  | AtEmpty =>
      match results g with
      | [] => goto AtAlive g
      | _ :: _ => goto AtGet g
      end
  | AtGet =>
      match results g with
      | x :: rest =>
          mk_gen (alive g) (todo g) rest (Returned x) (published g) (delivered g ++ [x])
      | [] => g   (* [get()] blocks on an empty queue *)
      end
  | AtAlive => if alive g then goto AtEmpty g else goto AtEmptyAgain g
  | AtEmptyAgain =>
      match results g with
      | [] => goto Stopped g
      | _ :: _ => goto AtEmpty g
      end
  end.

Inductive agent :=
| Worker
| Consumer.

Definition step (g : QueueGenerator) (a : agent) : QueueGenerator :=
  match a with
  | Worker => worker_step g
  | Consumer => __next__ g
  end.

Definition run (g : QueueGenerator) (sched : list agent) : QueueGenerator :=
  foldl step g sched.

(** The invariant of every interleaving. *)
Definition coherent (g : QueueGenerator) : Prop :=
  published g = delivered g ++ results g
  ∧ (alive g = false -> todo g = [])
  ∧ match where_ g with
    | AtGet => results g ≠ []
    | AtEmptyAgain => alive g = false
    | Stopped => alive g = false ∧ results g = []
    | Returned x => ∃ before, delivered g = before ++ [x]
    | _ => True
    end.

(** The states a generator can be in once it has ended. *)
Definition ended (g : QueueGenerator) : Prop :=
  alive g = false ∧ results g = []
  ∧ (where_ g = Stopped ∨ where_ g = AtEmpty ∨ where_ g = AtAlive
     ∨ where_ g = AtEmptyAgain).

End Generator.

Arguments pc : clear implicits.
Arguments QueueGenerator : clear implicits.

(** The work of the thread behind the streaming [find_all_data]: the
    hits up to the first progress report that is answered false. *)
Fixpoint work_of (scan : list scan_event) (progress : Z -> Z -> bool)
    : list (option (Z * bytes)) :=
  match scan with
  | [] => []
  | Progress cur total :: rest =>
      if progress cur total then work_of rest progress else [None]
  | Hit addr m :: rest => Some (addr, m) :: work_of rest progress
  end.

Inductive find_result :=
| Found (b : bool)
| Streaming (g : QueueGenerator (Z * bytes)).

(** [find_all_data]: the outcome, and the calls made to [match_callback].
    [scan_of] stands for what the native scan of [[start, end)] for
    [data] comes across. *)
Definition find_all_data
    (scan_of : Z -> Z -> bytes -> FindFlag -> list scan_event)
    (start_ end_ : Z) (data : pydata) (flags : pyflags)
    (progress_func : option (Z -> Z -> pyval))
    (match_callback : option (Z -> bytes -> pyval))
    : result find_result * list (Z * bytes) :=
  match data with
  | PyBytes buf =>
      match flags with
      | NotFlags => (Raise (mk_exn TypeError "flag parameter must have type FindFlag"), [])
      | Flags f =>
          let scan := scan_of start_ end_ buf f in
          match match_callback with
          | Some cb =>
              let '(found, called) :=
                BNFindAllDataWithProgress scan (progress_func_obj progress_func)
                  (match_callback_obj cb) in
              (Return (Found found), called)
          | None =>
              (Return (Streaming
                 (__init__ (work_of scan (progress_func_obj progress_func)))), [])
          end
      end
  | _ => (Raise (mk_exn TypeError "data parameter must be bytes, bytearray, or str"), [])
  end.

End Search.

(** ** The type parser entry points *)

Module TypeParser.
Import Py.

(** The [text] argument: a [str], or something else. *)
Inductive pytext :=
| Text (s : string)
| NotText.

Definition QualifiedName := list string.

(** A Python [Type] object made by [Type.create] from a native type
    reference, for the platform of the view. *)
Record Type_ := mk_type {
  type_handle : Z;
  type_platform : option Z
}.

(** What a native parse call leaves behind: on success the filled-in
    result structure, on failure the [errors] string, which may be
    unset. *)
Inductive parse_outcome (R : Type) :=
| ParseOk (r : R)
| ParseFailed (errors : option string).
Arguments ParseOk {R} r.
Arguments ParseFailed {R} errors.

(** [BNQualifiedNameAndType] *)
Record BNQualifiedNameAndType := mk_qnt {
  qnt_name : QualifiedName;
  qnt_type : Z
}.

(** [BNTypeParserResult] *)
Record BNTypeParserResult := mk_parse {
  types : list BNQualifiedNameAndType;
  variables : list BNQualifiedNameAndType;
  functions : list BNQualifiedNameAndType
}.

Record TypeParserResult := mk_result {
  res_types : gmap QualifiedName Type_;
  res_variables : gmap QualifiedName Type_;
  res_functions : gmap QualifiedName Type_
}.

Definition parse_type_string
    (BNParseTypeString : string -> parse_outcome BNQualifiedNameAndType)
    (platform : option Z) (text : pytext) : result (Type_ * QualifiedName) :=
  match text with
  | NotText => Raise (mk_exn AttributeError "Source must be a string")
  | Text s =>
      match BNParseTypeString s with
      | ParseFailed None =>
          Raise (mk_exn AssertionError
                   "core.BNParseTypeString returned 'errors' set to None")
      | ParseFailed (Some error_str) => Raise (mk_exn SyntaxError error_str)
      | ParseOk r => Return (mk_type (qnt_type r) platform, qnt_name r)
      end
  end.

(** [for i in range(0, count): d[name_i] = Type.create(type_i)] *)
Definition fill (platform : option Z) (entries : list BNQualifiedNameAndType)
    : gmap QualifiedName Type_ :=
  foldl (fun d e => <[qnt_name e := mk_type (qnt_type e) platform]> d) ∅ entries.

Definition parse_types_from_string
    (BNParseTypesString : string -> parse_outcome BNTypeParserResult)
    (platform : option Z) (text : pytext) : result TypeParserResult :=
  match text with
  | NotText => Raise (mk_exn AttributeError "Source must be a string")
  | Text s =>
      match BNParseTypesString s with
      | ParseFailed None =>
          Raise (mk_exn AssertionError
                   "core.BNParseTypesString returned errors set to None")
      | ParseFailed (Some error_str) => Raise (mk_exn SyntaxError error_str)
      | ParseOk parse =>
          Return (mk_result (fill platform (types parse))
                            (fill platform (variables parse))
                            (fill platform (functions parse)))
      end
  end.

End TypeParser.

(** ** Analysis progress queries *)

Module Analysis.
Import Py.

Inductive AnalysisState :=
| InitialState
| HoldState
| IdleState
| DisassembleState
| AnalyzeState
| ExtendedAnalyzeState.

(** Native structures, as the core lays them out. *)
Record BNActiveAnalysisInfo := mk_active {
  func : Z;
  active_analysisTime : Z;
  updateCount : Z;
  submitCount : Z
}.

Record BNAnalysisInfo := mk_info {
  state : AnalysisState;
  analysisTime : Z;
  activeInfo : list BNActiveAnalysisInfo   (* [count] is its length *)
}.

Record BNAnalysisProgress := mk_progress {
  progress_state : AnalysisState;
  count : Z;
  total : Z
}.

(** The native side: the scheduler's live state, and the memory blocks
    it has handed out. *)
Record core := mk_core {
  live_info : BNAnalysisInfo;
  live_progress : BNAnalysisProgress;
  blocks : gmap positive BNAnalysisInfo;
  function_refs : list Z      (* references taken by [BNNewFunctionReference] *)
}.

(** What a field of a Python object can hold: a Python integer of its
    own, or a ctypes view that reads through to a native block. *)
Inductive cell :=
| Own (z : Z)
| View (block : positive) (select : BNAnalysisInfo -> Z).

(** The current content of a cell, given the native blocks. *)
Definition observe (m : gmap positive BNAnalysisInfo) (c : cell) : option Z :=
  match c with
  | Own z => Some z
  | View p select => select <$> m !! p
  end.

(** Python objects. *)
Record Function := mk_function { handle : Z }.

Record ActiveAnalysisInfo := mk_ActiveAnalysisInfo {
  _func : Function;
  _active_analysis_time : cell;
  _update_count : cell;
  _submit_count : cell
}.

Record AnalysisInfo := mk_AnalysisInfo {
  _state : AnalysisState;
  _analysis_time : cell;
  _active_info : list ActiveAnalysisInfo
}.

Record AnalysisProgress := mk_AnalysisProgress {
  _progress_state : AnalysisState;
  _count : cell;
  _total : cell
}.

(** Modelled from the spec: the native calls behind the two
    properties, which the Python sources only call.
    [BNGetAnalysisInfo] hands out a block that
    holds the scheduler's state as it is at the call;
    [BNFreeAnalysisInfo] gives the block back; [BNGetAnalysisProgress]
    returns the progress by value. *)
Definition BNGetAnalysisInfo (c : core) : option positive * core :=
  let p := fresh (dom (blocks c)) in
  (Some p, mk_core (live_info c) (live_progress c)
             (<[p := live_info c]> (blocks c)) (function_refs c)).

Definition BNFreeAnalysisInfo (p : positive) (c : core) : core :=
  mk_core (live_info c) (live_progress c) (delete p (blocks c)) (function_refs c).

Definition BNGetAnalysisProgress (c : core) : BNAnalysisProgress := live_progress c.

Definition BNNewFunctionReference (f : Z) (c : core) : Z * core :=
  (f, mk_core (live_info c) (live_progress c) (blocks c) (function_refs c ++ [f])).

(** The body of the loop of [analysis_info]: reading an integer field of
    a ctypes structure yields a Python integer. *)
Definition make_active (a : BNActiveAnalysisInfo) (c : core) : ActiveAnalysisInfo * core :=
  let '(h, c1) := BNNewFunctionReference (func a) c in
  (mk_ActiveAnalysisInfo (mk_function h) (Own (active_analysisTime a))
     (Own (updateCount a)) (Own (submitCount a)), c1).

Fixpoint make_active_list (l : list BNActiveAnalysisInfo) (c : core)
    : list ActiveAnalysisInfo * core :=
  match l with
  | [] => ([], c)
  | a :: rest =>
      let '(x, c1) := make_active a c in
      let '(xs, c2) := make_active_list rest c1 in
      (x :: xs, c2)
  end.

(** The property [analysis_info]. *)
Definition analysis_info (c : core) : result AnalysisInfo * core :=
  match BNGetAnalysisInfo c with
  | (None, c1) =>
      (Raise (mk_exn AssertionError "core.BNGetAnalysisInfo returned None"), c1)
  | (Some info_ref, c1) =>
      match blocks c1 !! info_ref with
      | None => (Raise (mk_exn ValueError "NULL pointer access"), c1)
      | Some info =>
          let '(active_info_list, c2) := make_active_list (activeInfo info) c1 in
          let result := mk_AnalysisInfo (state info) (Own (analysisTime info))
                          active_info_list in
          (Return result, BNFreeAnalysisInfo info_ref c2)
      end
  end.

(** The property [analysis_progress]. *)
Definition analysis_progress (c : core) : AnalysisProgress :=
  let result := BNGetAnalysisProgress c in
  mk_AnalysisProgress (progress_state result) (Own (count result)) (Own (total result)).

(** What a caller sees of a returned object at a later time, when the
    native blocks are [m]. *)
Definition view_active (m : gmap positive BNAnalysisInfo) (a : ActiveAnalysisInfo)
    : Z * option Z * option Z * option Z :=
  (handle (_func a), observe m (_active_analysis_time a),
   observe m (_update_count a), observe m (_submit_count a)).

Definition view_info (m : gmap positive BNAnalysisInfo) (r : AnalysisInfo)
    : AnalysisState * option Z * list (Z * option Z * option Z * option Z) :=
  (_state r, observe m (_analysis_time r), map (view_active m) (_active_info r)).

Definition view_progress (m : gmap positive BNAnalysisInfo) (r : AnalysisProgress)
    : AnalysisState * option Z * option Z :=
  (_progress_state r, observe m (_count r), observe m (_total r)).

(** The same of the scheduler's state itself. *)
Definition snapshot_active (a : BNActiveAnalysisInfo) : Z * option Z * option Z * option Z :=
  (func a, Some (active_analysisTime a), Some (updateCount a), Some (submitCount a)).

Definition snapshot_info (i : BNAnalysisInfo)
    : AnalysisState * option Z * list (Z * option Z * option Z * option Z) :=
  (state i, Some (analysisTime i), map snapshot_active (activeInfo i)).

Definition snapshot_progress (p : BNAnalysisProgress)
    : AnalysisState * option Z * option Z :=
  (progress_state p, Some (count p), Some (total p)).

End Analysis.

(** ** String lookups: [get_string_at] and [get_ascii_string_at] *)

Module Strings.
Import Py.

Inductive StringType :=
| AsciiString
| Utf8String
| Utf16String
| Utf32String.

#[global] Instance StringType_eq_dec : EqDecision StringType.
Proof. solve_decision. Defined.

(** [StringReference(view, type, start, length)] *)
Record StringReference := mk_ref {
  ref_type : StringType;
  ref_start : Z;
  ref_length : Z
}.

(** [BNStringReference], as filled in by [BNGetStringAtAddress]. *)
Record BNStringReference := mk_str_ref {
  str_type : StringType;
  str_start : Z;
  str_length : Z
}.

(** [get_string_at]: the reference returned, and the addresses for
    which "Partial string not supported" was logged.
    [BNGetStringAtAddress] is the native lookup of the string that falls
    on an address. *)
Definition get_string_at (BNGetStringAtAddress : Z -> option BNStringReference)
    (addr : Z) (partial : bool) : option StringReference * list Z :=
  match BNGetStringAtAddress addr with
  | None => (None, [])
  | Some str_ref =>
      let not_ascii := negb (bool_decide (str_type str_ref = AsciiString)) in
      let partial' := if not_ascii then false else partial in
      let warnings := if not_ascii then [addr] else [] in
      let start := if partial' then addr else str_start str_ref in
      let length := if partial'
                    then str_length str_ref - (addr - str_start str_ref)
                    else str_length str_ref in
      (Some (mk_ref (str_type str_ref) start length), warnings)
  end.

(** The value of a byte as [read8] returns it. *)
Definition byte_value (b : Byte.byte) : Z := Z.of_N (Byte.to_N b).

(** [BinaryReader.read8] on a reader that has [br] left to read: the
    next byte, or [None] once the native read fails. *)
Definition read8 (br : list Byte.byte) : option Z * list Byte.byte :=
  match br with
  | [] => (None, [])
  | b :: rest => (Some (byte_value b), rest)
  end.

(** The [while] loop of [get_ascii_string_at], entered with [length]
    characters counted, [c] the byte read last and [br] still to read; it
    gives the final [length] and [c].  Where the reader has nothing left,
    [read8] gives [None] and the next test of the loop condition ends
    the loop. *)
Fixpoint ascii_loop (max_length : option Z) (length : Z) (c : option Z)
    (br : list Byte.byte) : Z * option Z :=
  match c with
  | None => (length, c)
  | Some v =>
      if (0 <? v) && (v <=? 0x7f) then
        if bool_decide (Some length = max_length) then (length, c)
        else
          match br with
          | [] => (length + 1, None)
          | b :: rest => ascii_loop max_length (length + 1) (Some (byte_value b)) rest
          end
      else (length, c)
  end.

(** The [addr] argument: an [int], or something else with its [str]. *)
Inductive pyaddr :=
| AddrInt (a : Z)
| AddrOther (shown : string).

(** [get_ascii_string_at].  [start_] and [end_] are the view's bounds and
    [reader_at a] is what a fresh [BinaryReader] yields after
    [seek(a)]. *)
Definition get_ascii_string_at (start_ end_ : Z) (reader_at : Z -> list Byte.byte)
    (addr : pyaddr) (min_length : Z) (max_length : option Z) (require_cstring : bool)
    : result (option StringReference) :=
  match addr with
  | AddrOther shown =>
      Raise (mk_exn AttributeError ("Input address (" +:+ shown +:+ ") is not a number."))
  | AddrInt a =>
      if (a <? start_) || (end_ <=? a) then Return None
      else
        let '(c, br) := read8 (reader_at a) in
        let '(length, c) := ascii_loop max_length 0 c br in
        if length <? min_length then Return None
        else if require_cstring && negb (bool_decide (c = Some 0)) then Return None
        else Return (Some (mk_ref AsciiString a length))
  end.

(** The bytes an ASCII string may consist of. *)
Definition ascii_char (b : Byte.byte) : Prop := 0 < byte_value b ≤ 0x7f.

End Strings.

(** ** Assignment through an index: [write] and [__setitem__] *)

Module Assign.
Import Py View.

(** The native calls that change a view, in the order they are made. *)
Inductive mutation :=
| Written (addr : Z) (data : bytes)
| Inserted (addr : Z) (data : bytes)
| Removed (addr : Z) (length : Z).

(** A call that stays inside [[0, limit]]. *)
Definition within (limit : Z) (m : mutation) : Prop :=
  match m with
  | Written a bs => 0 ≤ a ∧ a + Z.of_nat (length bs) ≤ limit
  | Inserted a bs => 0 ≤ a ≤ limit
  | Removed a n => 0 ≤ a ∧ 0 ≤ n ∧ a + n ≤ limit
  end.

Section SetItem.

(** The native entry points, by the counts they return, and [len()] of
    a value that is neither [bytes], [bytearray] nor [str]. *)
Variable BNWriteViewBuffer : Z -> bytes -> Z.
Variable BNInsertViewBuffer : Z -> bytes -> Z.
Variable BNRemoveViewData : Z -> Z -> Z.
Variable len_other : result Z.

(** [len(value)] *)
Definition len_value (value : pydata) : result Z :=
  match value with
  | PyBytes b | PyByteArray b => Return (Z.of_nat (length b))
  | PyStr s => Return (Z.of_nat (String.length s))
  | PyOther => len_other
  end.

(** [write]: the count returned, and the call made. *)
Definition write (addr : Z) (data : pydata) : result Z * list mutation :=
  match data with
  | PyBytes bs | PyByteArray bs => (Return (BNWriteViewBuffer addr bs), [Written addr bs])
  | PyStr s =>
      (Return (BNWriteViewBuffer addr (str_bytes s)), [Written addr (str_bytes s)])
  | PyOther => (Raise (mk_exn TypeError "Must be bytes, bytearray, or str"), [])
  end.

(** [insert] and [remove] with the call they make. *)
Definition insert_traced (addr : Z) (data : pydata) : result Z * list mutation :=
  (insert BNInsertViewBuffer addr data,
   match data with
   | PyBytes bs | PyByteArray bs => [Inserted addr bs]
   | PyStr s => [Inserted addr (str_bytes s)]
   | PyOther => []
   end).

Definition remove_traced (addr length : Z) : result Z * list mutation :=
  (remove BNRemoveViewData addr length, [Removed addr length]).

(** The assignment of one byte at [addr], after the range test. *)
Definition write_one (addr : Z) (value : pydata) : result unit * list mutation :=
  match len_value value with
  | Raise e => (Raise e, [])
  | Return n =>
      if negb (n =? 1) then
        (Raise (mk_exn ValueError "expected single byte for assignment"), [])
      else
        match write addr value with
        | (Raise e, tr) => (Raise e, tr)
        | (Return written, tr) =>
            if negb (written =? 1)
            then (Raise (mk_exn IndexError "index not writable"), tr)
            else (Return (), tr)
        end
  end.

(** [__setitem__]: how it ends, and the native calls made up to then. *)
Definition __setitem__ (v : CoreView) (i : index) (value : pydata)
    : result unit * list mutation :=
  match i with
  | IdxSlice lo hi step =>
      match step with
      | Some _ => (Raise (mk_exn IndexError "step not supported on assignment"), [])
      | None =>
          let '(start_, stop) := slice_indices lo hi (end_ v) in
          let stop := if stop <? start_ then start_ else stop in
          match len_value value with
          | Raise e => (Raise e, [])
          | Return n =>
              if negb (n =? stop - start_) then
                let '(_, tr1) := remove_traced start_ (stop - start_) in
                match insert_traced start_ value with
                | (Raise e, tr2) => (Raise e, tr1 ++ tr2)
                | (Return _, tr2) => (Return (), tr1 ++ tr2)
                end
              else
                match write start_ value with
                | (Raise e, tr) => (Raise e, tr)
                | (Return _, tr) => (Return (), tr)
                end
          end
      end
  | IdxInt i =>
      if i <? 0 then
        match len v with
        | Raise e => (Raise e, [])
        | Return n =>
            if - n <=? i then
              match len_value value with
              | Raise e => (Raise e, [])
              | Return m =>
                  if negb (m =? 1) then
                    (Raise (mk_exn ValueError "expected single byte for assignment"), [])
                  else
                    match len v with
                    | Raise e => (Raise e, [])
                    | Return n' =>
                        match write (n' + i) value with
                        | (Raise e, tr) => (Raise e, tr)
                        | (Return written, tr) =>
                            if negb (written =? 1)
                            then (Raise (mk_exn IndexError "index not writable"), tr)
                            else (Return (), tr)
                        end
                    end
              end
            else (Raise (mk_exn IndexError "index out of range"), [])
        end
      else if (start v <=? i) && (i <? end_ v) then write_one i value
      else (Raise (mk_exn IndexError "index out of range"), [])
  | IdxTuple _ =>
      (Raise (mk_exn TypeError
                "'<' not supported between instances of 'tuple' and 'int'"), [])
  end.

End SetItem.

End Assign.

(** ** Integers from bytes: [StructuredDataValue.int_from_bytes] and
    [read_int] *)

Module Ints.
Import Py View.

Inductive Endianness := LittleEndian | BigEndian.

#[global] Instance Endianness_eq_dec : EqDecision Endianness.
Proof. solve_decision. Defined.

(** How a conversion ends: with a value, with an exception of the
    classes of [Py], or with [struct.error]. *)
Inductive outcome :=
| Value (n : Z)
| Raised (e : exn)
| StructError.

Definition byte_value (b : Byte.byte) : Z := Z.of_N (Byte.to_N b).

(** The unsigned integer that [struct.unpack] reads from [data], least
    significant byte first and most significant byte first. *)
Definition le_value (data : bytes) : Z :=
  foldr (fun b acc => byte_value b + 256 * acc) 0 data.

Definition be_value (data : bytes) : Z :=
  foldl (fun acc b => 256 * acc + byte_value b) 0 data.

(** [struct.unpack] for the formats made of a byte order and one of
    B, H, I, Q or b, h, i, q: it refuses a buffer whose size is not the
    size of the format, and reads a lower-case code as two's
    complement. *)
Definition unpack (little signed : bool) (size : Z) (data : bytes) : option Z :=
  if negb (Z.of_nat (length data) =? size) then None
  else
    let u := if little then le_value data else be_value data in
    Some (if signed && (2 ^ (8 * size - 1) <=? u) then u - 2 ^ (8 * size) else u).

Section ReadInt.

(** ["{}".format(width)] and [f"{address:#x}"]. *)
Variable str_of_int : Z -> string.
Variable hex_of_int : Z -> string.

Definition int_from_bytes (data : bytes) (width : Z) (sign : bool)
    (endian : option Endianness) : outcome :=
  if bool_decide (width ∈ [1; 2; 4; 8]) then
    let little := bool_decide (endian = Some LittleEndian) in
    match unpack little sign width data with
    | Some n => Value n
    | None => StructError
    end
  else
    Raised (mk_exn Exception
              ("Could not convert to integer with width " +:+ str_of_int width)).

(** [read_int], over the view's [endianness] and its [read]. *)
Definition read_int (self_endianness : Endianness) (read : Z -> Z -> result bytes)
    (address size : Z) (sign : bool) (endian : option Endianness) : outcome :=
  let _endian :=
    match endian with
    | Some e => e
    | None => self_endianness
    end in
  match read address size with
  | Raise e => Raised e
  | Return data =>
      if negb (Z.of_nat (length data) =? size) then
        Raised (mk_exn ValueError
                  ("Couldn't read " +:+ str_of_int size +:+ " bytes from address: "
                   +:+ hex_of_int address))
      else int_from_bytes data size sign (Some _endian)
  end.

End ReadInt.

End Ints.

(** ** Registering observers: [register_notification] and
    [unregister_notification] *)

Module Registry.

(** The native calls: each carries the callback object it is made with
    and the observer that object wraps. *)
Inductive native_call :=
| BNRegisterDataNotification (cb : nat) (notify : nat)
| BNUnregisterDataNotification (cb : nat).

(** A view: the dictionary [_notifications], from observers to their
    callback objects; the number of callback objects created so far,
    which names the next one; and the native calls made so far. *)
Record view := mk_view {
  _notifications : gmap nat nat;
  created : nat;
  native : list native_call
}.

Definition empty : view := mk_view ∅ 0 [].

Definition register_notification (self : view) (notify : nat) : view :=
  let cb := created self in
  mk_view (<[notify := cb]> (_notifications self))
          (S (created self))
          (native self ++ [BNRegisterDataNotification cb notify]).

Definition unregister_notification (self : view) (notify : nat) : view :=
  match _notifications self !! notify with
  | Some cb =>
      mk_view (delete notify (_notifications self))
              (created self)
              (native self ++ [BNUnregisterDataNotification cb])
  | None => self
  end.

Inductive action :=
| Register (notify : nat)
| Unregister (notify : nat).

Definition step (self : view) (a : action) : view :=
  match a with
  | Register notify => register_notification self notify
  | Unregister notify => unregister_notification self notify
  end.

Definition run (self : view) (actions : list action) : view :=
  foldl step self actions.

(** The callback objects registered with the core and not unregistered
    since, each with its observer. *)
Definition live_step (m : gmap nat nat) (c : native_call) : gmap nat nat :=
  match c with
  | BNRegisterDataNotification cb notify => <[cb := notify]> m
  | BNUnregisterDataNotification cb => delete cb m
  end.

Definition live (calls : list native_call) : gmap nat nat :=
  foldl live_step ∅ calls.

(** What holds of a view however it was used: a tracked callback object
    is live for its observer, no two observers share one, and every
    live callback object has been created. *)
Definition consistent (self : view) : Prop :=
  (∀ notify cb, _notifications self !! notify = Some cb ->
                live (native self) !! cb = Some notify)
  ∧ (∀ cb notify, live (native self) !! cb = Some notify -> (cb < created self)%nat).

End Registry.

(** ** The read callback of a view implemented in Python *)

Module Wrappers.
Import Py View.

(** [_read]: the count returned to the core, the bytes moved into
    [dest], and the lines logged.  [length] is the size the core passes,
    which is unsigned; [perform_read] may return [None]. *)
Definition _read (perform_read : Z -> Z -> result (option bytes))
    (offset : Z) (length : N) : Z * bytes * list string :=
  match perform_read offset (Z.of_N length) with
  | Return None => (0, [], [])
  | Return (Some data) =>
      let data :=
        if Z.of_N length <? Z.of_nat (List.length data)
        then take (N.to_nat length) data
        else data in
      (Z.of_nat (List.length data), data, [])
  | Raise e => (0, [], [format_exc e])
  end.

End Wrappers.

(** ** Dictionaries by name: [symbols] and [tag_types] *)

Module ByName.

(** A symbol or a tag type, as far as grouping looks at it: its name
    and the native reference taken for it. *)
Record named := mk_named {
  name : string;
  handle : nat
}.

(** [symbols]: a [defaultdict(list)] filled in the order of the core's
    list. *)
Definition symbols (syms : list named) : gmap string (list named) :=
  foldl (fun result sym =>
           <[name sym := default [] (result !! name sym) ++ [sym]]> result)
        ∅ syms.

(** A value of the dictionary [tag_types] builds: one tag type, or a
    list of them. *)
Inductive tag_entry :=
| Single (tag : named)
| Several (tags : list named).

Definition tag_types (types : list named) : gmap string tag_entry :=
  foldl (fun result tag =>
           match result !! name tag with
           | Some (Several tags) => <[name tag := Several (tags ++ [tag])]> result
           | Some (Single first) => <[name tag := Several [first; tag]]> result
           | None => <[name tag := Single tag]> result
           end)
        ∅ types.

(** The value under a name, given the tag types of that name in the
    order of the core's list. *)
Definition grouped (tags : list named) : option tag_entry :=
  match tags with
  | [] => None
  | [tag] => Some (Single tag)
  | _ => Some (Several tags)
  end.

End ByName.

(** ** Disassembly from an address: [disassembly_tokens] *)

Module Disasm.
Import Py View.

(** How far a generator got: it returned, it raised, or it is suspended
    at a [yield] with more to come. *)
Inductive ending :=
| Finished
| Failed (e : exn)
| Suspended.

Section Disassembly.

(** The tokens of one instruction; [arch.get_instruction_text] and
    [arch.max_instr_length] of an architecture. *)
Variable tokens : Type.

Record Architecture := mk_arch {
  get_instruction_text : bytes -> Z -> option tokens * Z;
  max_instr_length : Z
}.

(** [self.read] *)
Variable read : Z -> Z -> result bytes.

(** The [while] loop: the pairs yielded by the first [fuel] turns, and
    how the generator stands after them. *)
Fixpoint disassembly_loop (arch : Architecture) (fuel : nat) (addr : Z)
    : list (tokens * Z) * ending :=
  match fuel with
  | O => ([], Suspended)
  | S fuel =>
      match read addr (max_instr_length arch) with
      | Raise e => ([], Failed e)
      | Return data =>
          let '(toks, size) := get_instruction_text arch data addr in
          let addr := addr + size in
          match toks with
          | Some t =>
              if size =? 0 then ([], Finished)
              else
                let '(rest, e) := disassembly_loop arch fuel addr in
                ((t, size) :: rest, e)
          | None => ([], Finished)
          end
      end
  end.

Definition disassembly_tokens (self_arch : option Architecture) (fuel : nat)
    (addr : Z) (arch : option Architecture) : list (tokens * Z) * ending :=
  match arch, self_arch with
  | Some a, _ | None, Some a => disassembly_loop a fuel addr
  | None, None =>
      ([], Failed (mk_exn Exception
                     "Can not call method disassembly with no Architecture specified"))
  end.

(** The address the [k]-th instruction is decoded at. *)
Definition address_of (addr : Z) (items : list (tokens * Z)) (k : nat) : Z :=
  addr + foldr Z.add 0 ((take k items).*2).

End Disassembly.

End Disasm.

(** ** Functions by name: [get_functions_by_name] *)

Module Functions.

Inductive SymbolType :=
| FunctionSymbol
| ImportedFunctionSymbol
| LibraryFunctionSymbol
| OtherSymbolType (code : nat).

Record Symbol := mk_symbol {
  sym_type : SymbolType;
  address : Z
}.

(** A function, with its [platform] as the identity of the platform
    object, [None] when it has none. *)
Record Function := mk_function {
  fn_start : Z;
  platform : option nat
}.

Section ByName.

(** [self.platform], [self.get_symbols_by_name] and
    [self.get_functions_at]. *)
Variable self_platform : option nat.
Variable get_symbols_by_name : string -> option (list SymbolType) -> list Symbol.
Variable get_functions_at : Z -> list Function.

Definition get_functions_by_name (name : string) (plat : option nat)
    (ordered_filter : option (list SymbolType)) : list Function :=
  let ordered_filter :=
    match ordered_filter with
    | Some _ => Some [FunctionSymbol; ImportedFunctionSymbol; LibraryFunctionSymbol]
    | None => ordered_filter
    end in
  let plat := if bool_decide (plat = None) then self_platform else plat in
  let syms := get_symbols_by_name name ordered_filter in
  foldl (fun fns sym =>
           foldl (fun fns fn =>
                    if bool_decide (platform fn = plat) then fns ++ [fn] else fns)
                 fns (get_functions_at (address sym)))
        [] syms.

End ByName.

End Functions.

(** * Completer: a shallow embedding of python/bncompleter.py *)

Module Completer.
Import Py.

(** What completion looks at in a value of a namespace:
    [callable(val)], [inspect.isclass(val)] and
    [str(inspect.signature(val))], which is [None] where
    [inspect.signature] raises. *)
Record pyobj := mk_obj {
  is_callable : bool;
  is_class : bool;
  signature : option string
}.

(** [fnsignature], on the branch taken from Python 3.5 on. *)
Definition fnsignature (obj : pyobj) : string :=
  match signature obj with
  | Some sig => sig
  | None => "()"
  end.

Definition _callable_postfix (val : pyobj) (word : string) : string :=
  if is_callable val && negb (is_class val) then word +:+ fnsignature val
  else word.

(** [word[:n]] *)
Definition slice_to (n : nat) (word : string) : string := String.substring 0 n word.

(** A [dict] with string keys, as [items()] walks it. *)
Definition dict := list (string * pyobj).

(** The loop state of [global_matches]: [matches] and [seen]. *)
Definition acc : Type := list string * gset string.

(** The body of the loop over [keyword.kwlist]. *)
Definition keyword_step (text : string) (a : acc) (word : string) : acc :=
  let '(matches, seen) := a in
  if bool_decide (slice_to (String.length text) word = text) then
    let seen := {[word]} ∪ seen in
    let word :=
      if bool_decide (word ∈ ["finally"; "try"]) then word +:+ ":"
      else if negb (bool_decide
                (word ∈ ["False"; "None"; "True"; "break"; "continue"; "pass"; "else"]))
      then word +:+ " "
      else word in
    (matches ++ [word], seen)
  else (matches, seen).

(** The body of the loop over the items of a namespace. *)
Definition item_step (text : string) (a : acc) (item : string * pyobj) : acc :=
  let '(matches, seen) := a in
  let '(word, val) := item in
  if bool_decide (slice_to (String.length text) word = text)
     && negb (bool_decide (word ∈ seen)) then
    (matches ++ [_callable_postfix val word], {[word]} ∪ seen)
  else (matches, seen).

(** Every match collected so far begins with [text]. *)
Definition begins_with (text : string) (a : acc) : Prop :=
  ∀ m, m ∈ a.1 -> ∃ rest, m = text +:+ rest.

(** [global_matches]; [kwlist] is [keyword.kwlist] and [builtins] the
    dictionary of the built-ins. *)
Definition global_matches (kwlist : list string) (builtins : dict)
    (self_namespace : dict) (text : string) : list string :=
  let a := foldl (keyword_step text) ([], {["__builtins__"]}) kwlist in
  let a := foldl (item_step text) a self_namespace in
  let a := foldl (item_step text) a builtins in
  a.1.

(** A [Completer]: [use_main_ns], and the attributes [namespace] and
    [matches], each [None] until it is first assigned. *)
Record state := mk_state {
  use_main_ns : bool;
  namespace : option dict;
  matches : option (list string)
}.

(** [Completer(namespace)] for a [namespace] that is [None] or a
    dictionary, the two cases that pass the type test. *)
Definition __init__ (namespace : option dict) : state :=
  match namespace with
  | None => mk_state true None None
  | Some d => mk_state false (Some d) None
  end.

(** ["." in text]; 46 is the code of the dot. *)
Fixpoint has_dot (text : string) : bool :=
  match text with
  | EmptyString => false
  | String c rest => bool_decide (c = Ascii.ascii_of_nat 46) || has_dot rest
  end.

(** [matches[state]] with its [IndexError] turned into [None]; a
    negative [state] counts from the end. *)
Definition item_or_none (matches : list string) (state : Z) : option string :=
  let n := Z.of_nat (length matches) in
  if (0 <=? state) && (state <? n) then matches !! Z.to_nat state
  else if (- n <=? state) && (state <? 0) then matches !! Z.to_nat (n + state)
  else None.

Section Complete.

(** [keyword.kwlist], the built-ins, [__main__.__dict__], [str.strip]
    and [attr_matches], which evaluates the text before the last dot. *)
Variable kwlist : list string.
Variable builtins : dict.
Variable main_dict : dict.
Variable strip : string -> string.
Variable attr_matches : dict -> string -> list string.

(** [complete]: the value returned (9 is the code of the tab) or the exception raised, and the
    completer afterwards. *)
Definition complete (self : state) (text : string) (st : Z)
    : result (option string) * state :=
  let self :=
    if use_main_ns self
    then mk_state (use_main_ns self) (Some main_dict) (matches self)
    else self in
  if bool_decide (strip text = "") then
    (Return (if st =? 0 then Some (String (Ascii.ascii_of_nat 9) "") else None), self)
  else
    let computed :=
      if st =? 0 then
        match namespace self with
        | None =>
            Raise (mk_exn AttributeError
                     "'Completer' object has no attribute 'namespace'")
        | Some ns =>
            let ms := if has_dot text then attr_matches ns text
                      else global_matches kwlist builtins ns text in
            Return (mk_state (use_main_ns self) (namespace self) (Some ms))
        end
      else Return self in
    match computed with
    | Raise e => (Raise e, self)
    | Return self =>
        match matches self with
        | None =>
            (Raise (mk_exn AttributeError
                      "'Completer' object has no attribute 'matches'"), self)
        | Some ms => (Return (item_or_none ms st), self)
        end
    end.

End Complete.

End Completer.

(** * Properties *)

(** ** Change notification *)

Section NotifyFacts.
Import Py Notify.

Variable wrap : event_kind -> payload -> result payload.

Lemma all_kinds_complete (k : event_kind) : k ∈ all_kinds.
Proof. destruct k; unfold all_kinds; set_solver. Qed.

Lemma clause_of_bare (k : event_kind) :
  k ≠ data_written -> clause_of k = ExceptAll.
Proof. destruct k; simpl; congruence. Qed.

(** Every wrapper with a bare [except:] returns normally, whatever the
    observer method or the wrapping of the arguments does. *)
Lemma callback_returns (o : BinaryDataNotification) (k : event_kind)
    (p : payload) (w : world) :
  k ≠ data_written -> (callback wrap o k p w).1 = Return tt.
Proof.
  intros Hk. unfold callback, try_log. rewrite (clause_of_bare k Hk).
  destruct (marshal wrap k p) as [args|e]; simpl; [|done].
  destruct (obs_method o k args) as [[]|e]; done.
Qed.

(** ... and a raising observer method leaves its trace in the log. *)
Lemma callback_logs (o : BinaryDataNotification) (k : event_kind)
    (p args : payload) (e : exn) (w : world) :
  k ≠ data_written ->
  marshal wrap k p = Return args ->
  obs_method o k args = Raise e ->
  callback wrap o k p w
  = (Return tt, log_error (format_exc e) (enter (obs_id o) k args w)).
Proof.
  intros Hk Hm Ho. unfold callback, try_log.
  rewrite (clause_of_bare k Hk), Hm, Ho. done.
Qed.

Lemma callback_calls_grow (o : BinaryDataNotification) (k : event_kind)
    (p : payload) (w : world) :
  ∃ more, calls (callback wrap o k p w).2 = calls w ++ more.
Proof.
  unfold callback, try_log.
  destruct (marshal wrap k p) as [args|e]; simpl.
  - destruct (obs_method o k args) as [[]|e]; simpl.
    + by eexists.
    + destruct (catches _ _); simpl; by eexists.
  - destruct (catches _ _); simpl; exists []; by rewrite app_nil_r.
Qed.

Lemma deliver_calls_grow (os : list BinaryDataNotification) (k : event_kind)
    (p : payload) (w : world) :
  ∃ more, calls (deliver wrap os k p w).2 = calls w ++ more.
Proof.
  revert w. induction os as [|o os IH]; intros w; simpl.
  - exists []. by rewrite app_nil_r.
  - destruct (callback wrap o k p w) as [r w1] eqn:E1.
    destruct (IH w1) as [m2 H2].
    destruct (deliver wrap os k p w1) as [esc w2] eqn:E2. simpl in *.
    destruct (callback_calls_grow o k p w) as [m1 H1].
    rewrite E1 in H1. simpl in H1.
    exists (m1 ++ m2). by rewrite H2, H1, app_assoc.
Qed.

(** For every kind but [data_written] nothing escapes the delivery. *)
Lemma deliver_isolated (os : list BinaryDataNotification) (k : event_kind)
    (p : payload) (w : world) :
  k ≠ data_written -> (deliver wrap os k p w).1 = [].
Proof.
  intros Hk. revert w. induction os as [|o os IH]; intros w; simpl; [done|].
  pose proof (callback_returns o k p w Hk) as Hr.
  destruct (callback wrap o k p w) as [r w1]. simpl in Hr. subst r.
  specialize (IH w1). destruct (deliver wrap os k p w1) as [esc w2].
  simpl in *. done.
Qed.

(** [_data_written] deals with an exception exactly when it is an
    [OSError]; any other leaves the wrapper unlogged. *)
Lemma data_written_catches_only_oserror (o : BinaryDataNotification)
    (p : payload) (e : exn) (w : world) :
  obs_method o data_written p = Raise e ->
  _data_written wrap o p w
  = if issubclass (exn_cls e) OSError
    then (Return tt, log_error (format_exc e) (enter (obs_id o) data_written p w))
    else (Raise e, enter (obs_id o) data_written p w).
Proof.
  intros Ho. unfold _data_written, callback, try_log. simpl. by rewrite Ho.
Qed.

(** Every registered observer has its method entered, for every kind,
    as long as the arguments can be wrapped. *)
Lemma deliver_reaches_all (os : list BinaryDataNotification) (o : BinaryDataNotification)
    (k : event_kind) (p args : payload) (w : world) :
  marshal wrap k p = Return args -> o ∈ os ->
  (obs_id o, k, args) ∈ calls (deliver wrap os k p w).2.
Proof.
  intros Hm. revert w. induction os as [|o' os IH]; intros w Hin.
  - by apply elem_of_nil in Hin.
  - simpl. destruct (callback wrap o' k p w) as [r w1] eqn:E1.
    destruct (deliver wrap os k p w1) as [esc w2] eqn:E2. simpl.
    apply elem_of_cons in Hin as [->|Hin].
    + destruct (deliver_calls_grow os k p w1) as [more Hmore].
      rewrite E2 in Hmore. simpl in Hmore. rewrite Hmore.
      apply elem_of_app. left.
      revert E1. unfold callback, try_log. rewrite Hm.
      destruct (obs_method o' k args) as [[]|e].
      * intros [= _ <-]. simpl. apply elem_of_app. right. by apply list_elem_of_singleton.
      * destruct (catches _ e); intros [= _ <-]; simpl;
          apply elem_of_app; right; by apply list_elem_of_singleton.
    + specialize (IH w1 Hin). by rewrite E2 in IH.
Qed.

End NotifyFacts.

(** C1 (fails for [data_written]).  An observer whose [data_written]
  method raises [ValueError] is not isolated: [_data_written] is written
  with [except OSError], so the exception leaves the wrapper and nothing
  is sent to the diagnostic log.  The same observer on [data_inserted]
  is caught and logged. *)
Theorem data_written_exception_escapes :
∀ (wrap : Notify.event_kind -> Notify.payload -> Py.result Notify.payload)
  (id : nat) (msg : string) (p : Notify.payload) (w : Notify.world),
  let e := Py.mk_exn Py.ValueError msg in
  let bad := Notify.always_raises id e in
  Notify._data_written wrap bad p w
    = (Py.Raise e, Notify.enter id Notify.data_written p w)
  ∧ Notify.diag_log (Notify._data_written wrap bad p w).2 = Notify.diag_log w
  ∧ Notify.deliver wrap [bad; Notify.well_behaved (S id)] Notify.data_written p w
    = ([e], Notify.enter (S id) Notify.data_written p
              (Notify.enter id Notify.data_written p w))
  ∧ Notify._data_inserted wrap bad p w
    = (Py.Return tt,
       Notify.log_error (Py.format_exc e)
         (Notify.enter id Notify.data_inserted p w)).
Proof. intros. repeat split. Qed.

(** ** Reads, indexing and the default [perform_*] methods *)

Section ViewFacts.
Import Py View.

Lemma mapped_prefix_length (segs : list Segment) (n : nat) (a : Z) :
  (length (mapped_prefix segs a n) <= n)%nat.
Proof.
  revert a. induction n as [|n IH]; intros a; simpl; [lia|].
  destruct (byte_at segs a); simpl; [|lia]. specialize (IH (a + 1)). lia.
Qed.

(** Each byte returned is the byte mapped at its address. *)
Lemma mapped_prefix_lookup (segs : list Segment) (n : nat) (a : Z) (i : nat) (b : Byte.byte) :
  mapped_prefix segs a n !! i = Some b -> byte_at segs (a + Z.of_nat i) = Some b.
Proof.
  revert a i. induction n as [|n IH]; intros a i; simpl; [done|].
  destruct (byte_at segs a) as [b0|] eqn:E; [|done].
  destruct i as [|i]; simpl.
  - intros [= <-]. by rewrite Z.add_0_r.
  - intros H. apply IH in H. rewrite <- H. f_equal. lia.
Qed.

(** A result shorter than requested stops at an unmapped address. *)
Lemma mapped_prefix_stops (segs : list Segment) (n : nat) (a : Z) :
  (length (mapped_prefix segs a n) < n)%nat ->
  byte_at segs (a + Z.of_nat (length (mapped_prefix segs a n))) = None.
Proof.
  revert a. induction n as [|n IH]; intros a; simpl; [lia|].
  destruct (byte_at segs a) as [b0|] eqn:E; simpl.
  - intros H. rewrite <- (IH (a + 1)) by lia. f_equal. lia.
  - intros _. by rewrite Z.add_0_r.
Qed.

Lemma mapped_prefix_one (segs : list Segment) (a : Z) :
  mapped_prefix segs a 1 = match byte_at segs a with Some b => [b] | None => [] end.
Proof. simpl. by destruct (byte_at segs a). Qed.

Lemma read_one_mapped (v : CoreView) (a : Z) (b : Byte.byte) :
  0 ≤ a -> byte_at (segments v) a = Some b -> read_one v a = Return [b].
Proof.
  intros Ha Hb. unfold read_one, read.
  replace (a <? 0) with false by lia. simpl.
  unfold BNReadViewBuffer. change (Z.to_nat 1) with 1%nat.
  rewrite mapped_prefix_one, Hb. done.
Qed.

Lemma read_one_unmapped (v : CoreView) (a : Z) :
  0 ≤ a -> byte_at (segments v) a = None ->
  read_one v a = Raise (mk_exn IndexError "index not readable").
Proof.
  intros Ha Hb. unfold read_one, read.
  replace (a <? 0) with false by lia. simpl.
  unfold BNReadViewBuffer. change (Z.to_nat 1) with 1%nat.
  rewrite mapped_prefix_one, Hb. done.
Qed.

Lemma clamp_bound_range (length dflt : Z) (b : option Z) :
  0 ≤ length -> 0 ≤ dflt ≤ length -> 0 ≤ clamp_bound length dflt b ≤ length.
Proof.
  intros Hl Hd. unfold clamp_bound. destruct b as [x|]; [|done].
  repeat case_match; lia.
Qed.

Lemma end_nonneg (v : CoreView) : 0 ≤ end_ v.
Proof. unfold end_. lia. Qed.

Lemma start_nonneg (v : CoreView) : 0 ≤ start v.
Proof. unfold start. lia. Qed.

Lemma len_nonneg (v : CoreView) (n : Z) : len v = Return n -> 0 ≤ n.
Proof. unfold len, __len__. case_match; [|done]. intros [= <-]. lia. Qed.

End ViewFacts.

(** C3.  With non-negative arguments [read] makes one native read and
    returns its result: at most [length] bytes, each the byte mapped at
    its address, stopping early only at an unmapped address; it does not
    raise.  With a negative argument it raises [ValueError] and makes no
    native call. *)
Theorem read_contract (v : View.CoreView) (addr length : Z) :
  (0 ≤ addr -> 0 ≤ length ->
   ∃ bs : View.bytes,
     View.read v addr length = (Py.Return bs, [View.CallReadViewBuffer addr length])
     ∧ Z.of_nat (List.length bs) ≤ length
     ∧ (∀ (i : nat) (b : Byte.byte),
          bs !! i = Some b -> View.byte_at (View.segments v) (addr + Z.of_nat i) = Some b)
     ∧ (Z.of_nat (List.length bs) < length ->
        View.byte_at (View.segments v) (addr + Z.of_nat (List.length bs)) = None))
  ∧ (addr < 0 ∨ length < 0 ->
     ∃ msg, View.read v addr length = (Py.Raise (Py.mk_exn Py.ValueError msg), [])).
Proof.
  split.
  - intros Ha Hl. exists (View.BNReadViewBuffer v addr length).
    unfold View.read. replace (addr <? 0) with false by lia.
    replace (length <? 0) with false by lia. simpl.
    unfold View.BNReadViewBuffer. repeat split.
    + pose proof (mapped_prefix_length (View.segments v) (Z.to_nat length) addr). lia.
    + intros i b. apply mapped_prefix_lookup.
    + intros H. apply mapped_prefix_stops. lia.
  - intros H. eexists. unfold View.read.
    destruct H as [H|H].
    + replace (addr <? 0) with true by lia. done.
    + replace (length <? 0) with true by lia. by rewrite orb_true_r.
Qed.

Lemma read_contract_witness :
  (∃ bs : View.bytes,
     View.read View.two_segments 0x1010 16
       = (Py.Return bs, [View.CallReadViewBuffer 0x1010 16])
     ∧ Z.of_nat (List.length bs) ≤ 16
     ∧ (∀ (i : nat) (b : Byte.byte),
          bs !! i = Some b ->
          View.byte_at (View.segments View.two_segments) (0x1010 + Z.of_nat i) = Some b)
     ∧ (Z.of_nat (List.length bs) < 16 ->
        View.byte_at (View.segments View.two_segments)
          (0x1010 + Z.of_nat (List.length bs)) = None))
  ∧ (∃ msg, View.read View.two_segments (-1) 16
            = (Py.Raise (Py.mk_exn Py.ValueError msg), [])).
Proof.
  split.
  - apply (proj1 (read_contract View.two_segments 0x1010 16)); lia.
  - apply (proj2 (read_contract View.two_segments (-1) 16)). left. lia.
Defined.

(** The gap scenario: reading in the gap gives the empty result. *)
Example read_in_gap :
  View.read View.two_segments 0x1010 16
  = (Py.Return [], [View.CallReadViewBuffer 0x1010 16]).
Proof. reflexivity. Qed.

Example read_across_gap :
  (View.read View.two_segments 0x100e 16).1 = Py.Return [Byte.x41; Byte.x41].
Proof. reflexivity. Qed.

Section GetItemFacts.
Import Py View.

(** [slice.indices] as arithmetic: a negative bound counts from the
    length and stops at 0, another bound stops at the length. *)
Lemma clamp_bound_arith (length dflt : Z) (x : option Z) :
  0 ≤ length ->
  clamp_bound length dflt x
  = match x with
    | None => dflt
    | Some x => if x <? 0 then Z.max 0 (x + length) else Z.min x length
    end.
Proof.
  intros Hl. unfold clamp_bound. destruct x as [x|]; [|done].
  repeat case_match; lia.
Qed.

Lemma len_value (v : CoreView) :
  __len__ v ≤ 2 ^ 63 - 1 -> len v = Return (__len__ v).
Proof.
  intros H. unfold len. change maxsize with (2 ^ 63 - 1).
  by replace (__len__ v <=? 2 ^ 63 - 1) with true by lia.
Qed.

Lemma len_overflow (v : CoreView) :
  2 ^ 63 - 1 < __len__ v ->
  len v = Raise (mk_exn OverflowError "cannot fit 'int' into an index-sized integer").
Proof.
  intros H. unfold len. change maxsize with (2 ^ 63 - 1).
  by replace (__len__ v <=? 2 ^ 63 - 1) with false by lia.
Qed.

End GetItemFacts.

(** C10 (fails on a view longer than [sys.maxsize]).  On a view of
    length 2^63 whose last byte is mapped, [view[-1]] raises
    [OverflowError]: the index is not below [-len(view)] and the byte at
    [len(view) - 1] is readable, yet the result is neither that byte nor
    an [IndexError]. *)
Lemma getitem_negative_index_overflow_counterexample :
  let huge :=
    View.mk_view 0 (2 ^ 63) (2 ^ 63)
      [View.mk_segment (2 ^ 63 - 16) (2 ^ 63) (repeat Byte.x42 16)] in
  - View.__len__ huge ≤ -1
  ∧ View.byte_at (View.segments huge) (View.__len__ huge + -1) = Some Byte.x42
  ∧ View.__getitem__ huge (View.IdxInt (-1))
    = Py.Raise (Py.mk_exn Py.OverflowError
                  "cannot fit 'int' into an index-sized integer").
Proof. vm_compute. repeat split. discriminate. Qed.

(** C10 (as the code behaves).  Indexing with an integer [i >= 0]
    returns the one byte mapped at [i] when [start <= i < end] and a byte
    is mapped there, and raises [IndexError] otherwise.  Indexing with a
    slice without step never raises: an absent bound is 0 or [end], a
    negative bound [x] becomes [max(0, x + end)], another bound
    [min(x, end)]; the result is empty when the stop so obtained is not
    above the start, and otherwise holds the bytes mapped from the
    start on, up to the stop or the first unmapped address.  On a view
    whose length [n] is at most [sys.maxsize], a negative [i] with
    [i >= -n] is looked up at address [n + i], and a negative [i] below
    [-n] is an [IndexError]; on a longer view every negative index
    raises [OverflowError]. *)
Theorem getitem_contract (v : View.CoreView) :
  (∀ i b, View.start v ≤ i < View.end_ v ->
          View.byte_at (View.segments v) i = Some b ->
          View.__getitem__ v (View.IdxInt i) = Py.Return [b])
  ∧ (∀ i, 0 ≤ i ->
          ¬ (View.start v ≤ i < View.end_ v
             ∧ is_Some (View.byte_at (View.segments v) i)) ->
          ∃ msg, View.__getitem__ v (View.IdxInt i)
                 = Py.Raise (Py.mk_exn Py.IndexError msg))
  ∧ (∀ lo hi,
       let bound := fun (dflt : Z) (x : option Z) =>
         match x with
         | None => dflt
         | Some x => if x <? 0 then Z.max 0 (x + View.end_ v) else Z.min x (View.end_ v)
         end in
       let a := bound 0 lo in
       let b := bound (View.end_ v) hi in
       0 ≤ a ≤ View.end_ v ∧ 0 ≤ b ≤ View.end_ v
       ∧ ∃ bs, View.__getitem__ v (View.IdxSlice lo hi None) = Py.Return bs
               ∧ (b ≤ a -> bs = [])
               ∧ (a < b ->
                  bs = View.BNReadViewBuffer v a (b - a)
                  ∧ Z.of_nat (length bs) ≤ b - a
                  ∧ (∀ (k : nat) (x : Byte.byte),
                       bs !! k = Some x ->
                       View.byte_at (View.segments v) (a + Z.of_nat k) = Some x)
                  ∧ (Z.of_nat (length bs) < b - a ->
                     View.byte_at (View.segments v) (a + Z.of_nat (length bs)) = None)))
  ∧ (∀ i, View.__len__ v ≤ 2 ^ 63 - 1 -> i < 0 -> - View.__len__ v ≤ i ->
          View.__getitem__ v (View.IdxInt i) = View.read_one v (View.__len__ v + i)
          ∧ match View.byte_at (View.segments v) (View.__len__ v + i) with
            | Some b => View.__getitem__ v (View.IdxInt i) = Py.Return [b]
            | None => ∃ msg, View.__getitem__ v (View.IdxInt i)
                             = Py.Raise (Py.mk_exn Py.IndexError msg)
            end)
  ∧ (∀ i, View.__len__ v ≤ 2 ^ 63 - 1 -> i < - View.__len__ v ->
          ∃ msg, View.__getitem__ v (View.IdxInt i)
                 = Py.Raise (Py.mk_exn Py.IndexError msg))
  ∧ (∀ i, 2 ^ 63 - 1 < View.__len__ v -> i < 0 ->
          ∃ msg, View.__getitem__ v (View.IdxInt i)
                 = Py.Raise (Py.mk_exn Py.OverflowError msg)).
Proof.
  pose proof (start_nonneg v) as Hs. pose proof (end_nonneg v) as He.
  split; [|split; [|split; [|split; [|split]]]].
  - intros i b Hi Hb. simpl.
    replace (i <? 0) with false by lia.
    replace (View.start v <=? i) with true by lia.
    replace (i <? View.end_ v) with true by lia. simpl.
    apply read_one_mapped; [lia|done].
  - intros i Hi Hn. simpl. replace (i <? 0) with false by lia.
    destruct ((View.start v <=? i) && (i <? View.end_ v)) eqn:E.
    + apply andb_true_iff in E as [E1 E2].
      destruct (View.byte_at (View.segments v) i) as [b|] eqn:Hb.
      * exfalso. apply Hn. split; [lia|by eexists].
      * eexists. by apply read_one_unmapped.
    + by eexists.
  - intros lo hi bound a b.
    assert (View.clamp_bound (View.end_ v) 0 lo = a) as Ea
      by (by rewrite clamp_bound_arith).
    assert (View.clamp_bound (View.end_ v) (View.end_ v) hi = b) as Eb
      by (by rewrite clamp_bound_arith).
    pose proof (clamp_bound_range (View.end_ v) 0 lo He ltac:(lia)) as Ha.
    pose proof (clamp_bound_range (View.end_ v) (View.end_ v) hi He ltac:(lia)) as Hb.
    rewrite Ea in Ha. rewrite Eb in Hb.
    split; [done|]. split; [done|].
    simpl. unfold View.slice_indices. rewrite Ea, Eb. clearbody a b.
    destruct (b <=? a) eqn:E.
    + exists []. split; [done|]. split; [done|]. intros. lia.
    + exists (View.BNReadViewBuffer v a (b - a)).
      unfold View.read.
      replace (a <? 0) with false by lia.
      replace (b - a <? 0) with false by lia. simpl.
      split; [done|]. split; [intros; lia|]. intros _.
      unfold View.BNReadViewBuffer. split; [done|]. split; [|split].
      * pose proof (mapped_prefix_length (View.segments v) (Z.to_nat (b - a)) a). lia.
      * intros k x. apply mapped_prefix_lookup.
      * intros H. apply mapped_prefix_stops. lia.
  - intros i Hmax Hi Hle.
    pose proof (len_value v Hmax) as Hlen.
    pose proof (len_nonneg v _ Hlen) as Hn.
    assert (View.__getitem__ v (View.IdxInt i) = View.read_one v (View.__len__ v + i)) as Hg.
    { simpl. replace (i <? 0) with true by lia. rewrite Hlen. simpl.
      by replace (- View.__len__ v <=? i) with true by lia. }
    split; [done|]. rewrite Hg.
    destruct (View.byte_at (View.segments v) (View.__len__ v + i)) as [b|] eqn:Hb.
    + apply read_one_mapped; [lia|done].
    + eexists. apply read_one_unmapped; [lia|done].
  - intros i Hmax Hi. pose proof (len_value v Hmax) as Hlen.
    pose proof (len_nonneg v _ Hlen) as Hn.
    simpl. replace (i <? 0) with true by lia. rewrite Hlen. simpl.
    replace (- View.__len__ v <=? i) with false by lia. by eexists.
  - intros i Hbig Hi. simpl. replace (i <? 0) with true by lia.
    rewrite (len_overflow v Hbig). by eexists.
Qed.

Lemma getitem_contract_witness :
  View.__getitem__ View.two_segments (View.IdxInt 0x1003) = Py.Return [Byte.x41]
  ∧ (∃ msg, View.__getitem__ View.two_segments (View.IdxInt 0x1800)
            = Py.Raise (Py.mk_exn Py.IndexError msg))
  ∧ (∃ bs, View.__getitem__ View.two_segments (View.IdxSlice (Some (-2)) None None)
           = Py.Return bs
           ∧ bs = [Byte.x42; Byte.x42])
  ∧ (∃ bs, View.__getitem__ View.two_segments
             (View.IdxSlice (Some 0x5000) (Some 0x6000) None) = Py.Return bs
           ∧ bs = [])
  ∧ (View.__getitem__ View.two_segments (View.IdxInt (-0x10))
     = View.read_one View.two_segments (0x1010 + -0x10)
     ∧ match View.byte_at (View.segments View.two_segments) (0x1010 + -0x10) with
       | Some b => View.__getitem__ View.two_segments (View.IdxInt (-0x10)) = Py.Return [b]
       | None => ∃ msg, View.__getitem__ View.two_segments (View.IdxInt (-0x10))
                        = Py.Raise (Py.mk_exn Py.IndexError msg)
       end)
  ∧ (∃ msg, View.__getitem__ View.two_segments (View.IdxInt (-0x2000))
            = Py.Raise (Py.mk_exn Py.IndexError msg)).
Proof.
  pose proof (getitem_contract View.two_segments) as (H1 & H2 & H3 & H4 & H5 & _).
  split; [|split; [|split; [|split; [|split]]]].
  - apply H1; [vm_compute; split; [discriminate|reflexivity] | reflexivity].
  - apply H2; [lia|]. intros [_ [b Hb]]. vm_compute in Hb. discriminate.
  - destruct (H3 (Some (-2)) None) as (_ & _ & bs & Hg & _ & Hbs).
    exists bs. split; [exact Hg|]. apply Hbs. reflexivity.
  - destruct (H3 (Some 0x5000) (Some 0x6000)) as (_ & _ & bs & Hg & Hempty & _).
    exists bs. split; [exact Hg|]. apply Hempty. vm_compute. discriminate.
  - apply H4; [vm_compute; discriminate | lia | vm_compute; discriminate].
  - apply H5; [vm_compute; discriminate | vm_compute; reflexivity].
Defined.

(** A view longer than [sys.maxsize] has no [len]: negative indexes
    raise [OverflowError] there. *)
Example getitem_negative_index_huge_view :
  View.__getitem__ (View.mk_view 0 (2 ^ 63) (2 ^ 63) []) (View.IdxInt (-1))
  = Py.Raise (Py.mk_exn Py.OverflowError "cannot fit 'int' into an index-sized integer").
Proof. reflexivity. Qed.

Example getitem_slice_out_of_bounds :
  View.__getitem__ View.two_segments (View.IdxSlice (Some 0x5000) (Some 0x6000) None)
  = Py.Return [].
Proof. reflexivity. Qed.

Example getitem_slice_negative :
  View.__getitem__ View.two_segments (View.IdxSlice (Some (-2)) None None)
  = Py.Return [Byte.x42; Byte.x42].
Proof. reflexivity. Qed.

Example getitem_negative_index :
  View.__getitem__ View.two_segments (View.IdxInt (-0x10))
  = Py.Return [Byte.x41].
Proof. reflexivity. Qed.

Example getitem_step :
  View.__getitem__ View.two_segments (View.IdxSlice None None (Some 2))
  = Py.Raise (Py.mk_exn Py.IndexError "step not implemented").
Proof. reflexivity. Qed.

Example getitem_tuple :
  View.__getitem__ View.two_segments
    (View.IdxTuple [View.IdxInt 0x1000; View.IdxSlice (Some 0x2000) (Some 0x2002) None])
  = Py.Return [Byte.x41; Byte.x42; Byte.x42].
Proof. reflexivity. Qed.

(** ** [perform_get_next_valid_offset] *)

Section NextValidOffsetFacts.
Import Py View.

Lemma foldr_min_le (c : Z) (cs : list Z) : foldr Z.min c cs ≤ c.
Proof. induction cs as [|x cs IH]; simpl; lia. Qed.

Lemma foldr_min_lower (c : Z) (cs : list Z) (x : Z) :
  x ∈ c :: cs -> foldr Z.min c cs ≤ x.
Proof.
  induction cs as [|y cs IH]; simpl.
  - intros ->%list_elem_of_singleton. lia.
  - rewrite !elem_of_cons. intros [->|[->|H]].
    + pose proof (foldr_min_le c cs). lia.
    + lia.
    + assert (foldr Z.min c cs ≤ x) by (apply IH; set_solver). lia.
Qed.

Lemma foldr_min_in (c : Z) (cs : list Z) : foldr Z.min c cs ∈ c :: cs.
Proof.
  induction cs as [|y cs IH]; simpl; [rewrite elem_of_cons; by left|].
  destruct (Z.min_spec y (foldr Z.min c cs)) as [[_ ->]|[_ ->]];
    revert IH; rewrite !elem_of_cons; tauto.
Qed.

Lemma valid_iff (v : CoreView) (a : Z) :
  BNIsValidOffset v a = true ↔ ∃ s, s ∈ segments v ∧ vstart s ≤ a < vend s.
Proof.
  unfold BNIsValidOffset. rewrite existsb_exists. split.
  - intros (s & Hin & Hs). exists s. rewrite list_elem_of_In. split; [done|].
    unfold in_segment in Hs. lia.
  - intros (s & Hin & Hs). exists s. rewrite <- list_elem_of_In. split; [done|].
    unfold in_segment. lia.
Qed.

Lemma candidates_spec (v : CoreView) (addr c : Z) :
  c ∈ candidates v addr ↔
  ∃ s, s ∈ segments v ∧ addr < vend s ∧ vstart s < vend s ∧ c = Z.max addr (vstart s).
Proof.
  unfold candidates. rewrite list_elem_of_fmap. split.
  - intros (s & -> & Hs). apply list_elem_of_filter in Hs as [Hp Hin].
    apply bool_decide_unpack in Hp. destruct Hp as [H1 H2]. by exists s.
  - intros (s & Hin & H1 & H2 & ->). exists s. split; [done|].
    apply list_elem_of_filter. split; [|done]. apply bool_decide_pack. done.
Qed.

(** The reference definition does compute what the specification words
    say: the smallest valid address at or above [addr] when there is
    one, the end of the view when there is none. *)
Lemma spec_next_valid_offset_correct (v : CoreView) (addr : Z) :
  ((∃ a, addr ≤ a ∧ BNIsValidOffset v a = true) ->
     addr ≤ spec_next_valid_offset v addr
     ∧ BNIsValidOffset v (spec_next_valid_offset v addr) = true
     ∧ ∀ a, addr ≤ a -> BNIsValidOffset v a = true -> spec_next_valid_offset v addr ≤ a)
  ∧ ((∀ a, addr ≤ a -> BNIsValidOffset v a = false) ->
     spec_next_valid_offset v addr = end_ v).
Proof.
  unfold spec_next_valid_offset. split.
  - intros (a & Ha & Hv). apply valid_iff in Hv as (s & Hin & Hs).
    assert (Z.max addr (vstart s) ∈ candidates v addr) as Hc.
    { apply candidates_spec. exists s. repeat split; [done|lia|lia]. }
    destruct (candidates v addr) as [|c cs] eqn:E; [set_solver|].
    pose proof (foldr_min_in c cs) as Hm. rewrite <- E in Hm.
    apply candidates_spec in Hm as (s' & Hin' & H1 & H2 & Hm).
    split; [lia|]. split.
    + apply valid_iff. exists s'. split; [done|]. lia.
    + intros a' Ha' Hv'. apply valid_iff in Hv' as (s'' & Hin'' & Hs'').
      assert (Z.max addr (vstart s'') ∈ c :: cs) as Hc''.
      { rewrite <- E. apply candidates_spec. exists s''. repeat split; [done|lia|lia]. }
      apply foldr_min_lower in Hc''. lia.
  - intros Hnone. destruct (candidates v addr) as [|c cs] eqn:E; [done|].
    assert (c ∈ candidates v addr) as Hc by (rewrite E; set_solver).
    apply candidates_spec in Hc as (s & Hin & H1 & H2 & ->).
    specialize (Hnone (Z.max addr (vstart s)) ltac:(lia)).
    assert (BNIsValidOffset v (Z.max addr (vstart s)) = true) as Hv.
    { apply valid_iff. exists s. split; [done|lia]. }
    congruence.
Qed.

End NextValidOffsetFacts.

(** C2 as stated does not hold of the default implementation: on the
    gap scenario the smallest valid address at or above [0x1010] is
    [0x2000], but the method returns [0x1010], which lies in no segment.
    This is so with the default [perform_get_start] and with one that
    returns the first segment's start. *)
Lemma next_valid_offset_gap_counterexample :
  View.spec_next_valid_offset View.two_segments 0x1010 = 0x2000
  ∧ View.perform_get_next_valid_offset View.perform_get_start 0x1010
    = Py.Return 0x1010
  ∧ (View._get_next_valid_offset View.perform_get_start 0x1010).1 ≠ 0x2000
  ∧ (View._get_next_valid_offset (Py.Return 0x1000) 0x1010).1 ≠ 0x2000
  ∧ View.BNIsValidOffset View.two_segments
      (View._get_next_valid_offset View.perform_get_start 0x1010).1 = false.
Proof. vm_compute. repeat split; discriminate. Qed.

(** C2, amended.  The default [perform_get_next_valid_offset] returns
    the larger of [addr] and the view's [perform_get_start]; the wrapper
    hands that to the core and logs nothing, and hands back [offset]
    itself (after logging) when [perform_get_start] raises.  The result is
    never below [addr] and is monotonic in [addr]. *)
Theorem next_valid_offset_default (s addr : Z) :
  View.perform_get_next_valid_offset (Py.Return s) addr = Py.Return (Z.max addr s)
  ∧ View._get_next_valid_offset (Py.Return s) addr = (Z.max addr s, [])
  ∧ (∀ e, View._get_next_valid_offset (Py.Raise e) addr = (addr, [Py.format_exc e]))
  ∧ addr ≤ (View._get_next_valid_offset (Py.Return s) addr).1
  ∧ (∀ addr', addr ≤ addr' ->
       (View._get_next_valid_offset (Py.Return s) addr).1
       ≤ (View._get_next_valid_offset (Py.Return s) addr').1).
Proof.
  assert (∀ a, View.perform_get_next_valid_offset (Py.Return s) a
               = Py.Return (Z.max a s)) as H.
  { intros a. unfold View.perform_get_next_valid_offset. simpl.
    destruct (a <? s) eqn:E; f_equal; lia. }
  assert (∀ a, View._get_next_valid_offset (Py.Return s) a = (Z.max a s, [])) as H'.
  { intros a. unfold View._get_next_valid_offset. by rewrite H. }
  split; [apply H|]. split; [apply H'|]. split; [done|]. split.
  - rewrite H'. simpl. lia.
  - intros addr' Hle. rewrite !H'. simpl. lia.
Qed.

Lemma next_valid_offset_default_witness :
  (View._get_next_valid_offset (Py.Return 0x1000) 0x1010).1
  ≤ (View._get_next_valid_offset (Py.Return 0x1000) 0x2000).1.
Proof.
  apply (proj2 (proj2 (proj2 (proj2 (next_valid_offset_default 0x1000 0x1010))))).
  lia.
Defined.

(** ** Default insert and remove *)

(** C7.  A view class that overrides neither [perform_insert] nor
    [perform_remove] hands 0 to the core from its insert and remove
    callbacks, for every address, data and length, logging nothing; with
    the core reporting what the callbacks report, [insert] and [remove]
    return 0 and do not raise. *)
Theorem default_insert_remove_report_zero (addr length : Z) (bs : View.bytes) (s : string) :
  View.perform_insert addr bs = Py.Return 0
  ∧ View.perform_remove addr length = Py.Return 0
  ∧ View._insert View.default_backend addr bs = (0, [])
  ∧ View._remove View.default_backend addr length = (0, [])
  ∧ View.insert (View.registered_insert View.default_backend) addr (View.PyBytes bs)
    = Py.Return 0
  ∧ View.insert (View.registered_insert View.default_backend) addr (View.PyByteArray bs)
    = Py.Return 0
  ∧ View.insert (View.registered_insert View.default_backend) addr (View.PyStr s)
    = Py.Return 0
  ∧ View.remove (View.registered_remove View.default_backend) addr length
    = Py.Return 0.
Proof. repeat split. Qed.

(** ** Completion events *)

Section CompletionFacts.
Import Py Completion.

Variable fires : bool.
Variable user : callable.
Variable id : nat.

Ltac notify_cases :=
  unfold _notify, count_call, call, forget, log_error; simpl;
  repeat (case_match; simpl); simpl.

Lemma _notify_fields (s : state) :
  pending (_notify user id s) = pending s ∖ {[id]}
  ∧ callback (_notify user id s) = callback s
  ∧ armed (_notify user id s) = armed s
  ∧ (invoked (_notify user id s) = invoked s
     ∨ (callback s = Original ∧ invoked (_notify user id s) = S (invoked s))).
Proof.
  destruct s as [c p a i l]. destruct c; notify_cases; auto 10.
Qed.

Lemma _notify_invoked_le (s : state) : (invoked (_notify user id s) <= S (invoked s))%nat.
Proof. destruct (_notify_fields s) as (_ & _ & _ & [->|[_ ->]]); lia. Qed.

(** Once the callback has been replaced, [_notify] never reaches the
    original one, however often the core calls it. *)
Lemma _notify_neutralized (s : state) :
  callback s = EmptyCallback ->
  invoked (_notify user id s) = invoked s
  ∧ callback (_notify user id s) = EmptyCallback
  ∧ log (_notify user id s) = log s.
Proof.
  destruct s as [c p a i l]. simpl. intros ->. by notify_cases.
Qed.

Lemma complete_fields (s : state) :
  armed (complete user id s) = false
  ∧ callback (complete user id s) = callback s
  ∧ (invoked s <= invoked (complete user id s) <= S (invoked s))%nat
  ∧ (armed s = false -> complete user id s = s).
Proof.
  unfold complete. destruct (armed s) eqn:E.
  - match goal with |- context [_notify _ _ ?x] =>
      destruct (_notify_fields x) as (_ & Hc & Ha & Hi) end.
    simpl in *. rewrite Ha, Hc. repeat split; try done.
    + destruct Hi as [->|[_ ->]]; lia.
    + destruct Hi as [->|[_ ->]]; lia.
  - rewrite E. repeat split; try done; lia.
Qed.

Lemma step_disarms (s : state) (a : action) : armed (step fires user id s a) = false.
Proof.
  destruct a; simpl; [apply complete_fields|done|].
  unfold abort_analysis, BNAbortAnalysis. destruct fires; [apply complete_fields|done].
Qed.

Lemma step_unarmed_invoked (s : state) (a : action) :
  armed s = false -> invoked (step fires user id s a) = invoked s.
Proof.
  intros H. destruct a; simpl.
  - by rewrite (proj2 (proj2 (proj2 (complete_fields s))) H).
  - done.
  - unfold abort_analysis, BNAbortAnalysis. destruct fires; [|done].
    by rewrite (proj2 (proj2 (proj2 (complete_fields s))) H).
Qed.

Lemma step_invoked_le (s : state) (a : action) :
  (invoked s <= invoked (step fires user id s a) <= S (invoked s))%nat.
Proof.
  destruct a; simpl.
  - apply complete_fields.
  - lia.
  - unfold abort_analysis, BNAbortAnalysis. destruct fires; [apply complete_fields|simpl; lia].
Qed.

Lemma run_unarmed_invoked (tr : list action) (s : state) :
  armed s = false -> invoked (run fires user id s tr) = invoked s.
Proof.
  revert s. induction tr as [|a tr IH]; intros s H; [done|].
  change (run fires user id s (a :: tr))
    with (run fires user id (step fires user id s a) tr).
  rewrite IH by apply step_disarms.
  by apply step_unarmed_invoked.
Qed.

Lemma run_app (t1 t2 : list action) (s : state) :
  run fires user id s (t1 ++ t2) = run fires user id (run fires user id s t1) t2.
Proof. unfold run. apply foldl_app. Qed.

Lemma run_invoked_mono (tr : list action) (s : state) :
  (invoked s <= invoked (run fires user id s tr))%nat.
Proof.
  revert s. induction tr as [|a tr IH]; intros s; [simpl; lia|].
  change (run fires user id s (a :: tr))
    with (run fires user id (step fires user id s a) tr).
  pose proof (step_invoked_le s a). specialize (IH (step fires user id s a)). lia.
Qed.

Lemma run_at_most_once (tr : list action) (s : state) :
  (invoked (run fires user id s tr) <= S (invoked s))%nat.
Proof.
  destruct tr as [|a tr]; [simpl; lia|].
  change (run fires user id s (a :: tr))
    with (run fires user id (step fires user id s a) tr).
  rewrite run_unarmed_invoked by apply step_disarms.
  apply step_invoked_le.
Qed.

Lemma not_in_forget (X : gset nat) : id ∉ X ∖ {[id]}.
Proof. intros [_ Hn]%elem_of_difference. apply Hn. by apply elem_of_singleton. Qed.

Lemma cancel_callback (s : state) : callback (cancel id s) = EmptyCallback.
Proof. done. Qed.

Lemma step_settled (s : state) (a : action) :
  settled id s -> settled id (step fires user id s a).
Proof.
  intros HI.
  assert (settled id (complete user id s)) as Hcomplete.
  { unfold complete. destruct (armed s) eqn:E; [|done]. right.
    match goal with |- context [_notify _ _ ?x] =>
      destruct (_notify_fields x) as (Hp & _ & Ha & _) end.
    rewrite Hp, Ha. simpl. split; [apply not_in_forget|done]. }
  destruct a; simpl; [done| |].
  - right. simpl. split; [apply not_in_forget|done].
  - unfold abort_analysis, BNAbortAnalysis. destruct fires; [done|].
    destruct HI as [H0|[Hp Ha]]; [by left|by right].
Qed.

Lemma run_settled (tr : list action) (s : state) :
  settled id s -> settled id (run fires user id s tr).
Proof.
  revert s. induction tr as [|a tr IH]; intros s H; [done|].
  change (run fires user id s (a :: tr))
    with (run fires user id (step fires user id s a) tr).
  by apply IH, step_settled.
Qed.

End CompletionFacts.

(** C4.  Starting from a freshly registered event, in every sequence of
    natural completions, [cancel()] calls and [abort_analysis()] calls
    (under either abort policy) the original callback runs at most once;
    [cancel()] replaces the callback by the empty one, and nothing that
    follows a [cancel()] runs the original callback; a [cancel()] issued
    after the callback has run changes neither the count of runs, nor the
    pending table, nor the log. *)
Theorem completion_event_at_most_once
    (fires : bool) (user : Completion.callable) (id : nat) (others : gset nat) :
  let s0 := Completion.__init__ id others in
  let run := Completion.run fires user id s0 in
  (∀ tr, (Completion.invoked (run tr) <= 1)%nat)
  ∧ (∀ t1 t2,
       Completion.callback (run (t1 ++ [Completion.Cancel])) = Completion.EmptyCallback
       ∧ Completion.invoked (run (t1 ++ Completion.Cancel :: t2))
         = Completion.invoked (run t1))
  ∧ (∀ s n, Completion.callback s = Completion.EmptyCallback ->
       Completion.invoked (Nat.iter n (Completion._notify user id) s)
       = Completion.invoked s)
  ∧ (∀ t1, Completion.invoked (run t1) = 1%nat ->
       let s := run t1 in
       let s' := Completion.cancel id s in
       Completion.invoked s' = Completion.invoked s
       ∧ Completion.pending s' = Completion.pending s
       ∧ Completion.armed s' = Completion.armed s
       ∧ Completion.log s' = Completion.log s
       ∧ ∀ t2, Completion.invoked (Completion.run fires user id s' t2) = 1%nat).
Proof.
  intros s0 run. split; [|split; [|split]].
  - intros tr. apply (run_at_most_once fires user id tr s0).
  - intros t1 t2. unfold run. split.
    + rewrite run_app. simpl. done.
    + rewrite run_app.
      change (Completion.run fires user id ?s (Completion.Cancel :: t2))
        with (Completion.run fires user id
                (Completion.step fires user id s Completion.Cancel) t2).
      rewrite run_unarmed_invoked by apply step_disarms. done.
  - intros s n Hs.
    assert (Completion.invoked (Nat.iter n (Completion._notify user id) s)
            = Completion.invoked s
            ∧ Completion.callback (Nat.iter n (Completion._notify user id) s)
              = Completion.EmptyCallback) as [H _]; [|done].
    induction n as [|n [IH1 IH2]]; simpl; [done|].
    destruct (_notify_neutralized user id _ IH2) as (H1 & H2 & _).
    split; congruence.
  - intros t1 Hfired s s'.
    assert (Completion.settled id s) as [H0|[Hp Ha]].
    { apply run_settled. by left. }
    { unfold s, run in H0. unfold run in Hfired. congruence. }
    assert (Completion.invoked s' = Completion.invoked s) as Hi by done.
    split; [done|]. split.
    { simpl. apply difference_disjoint_L. by apply disjoint_singleton_r. }
    split; [by rewrite Ha|].
    split; [done|]. intros t2.
    rewrite run_unarmed_invoked by done. by rewrite Hi.
Qed.

Lemma completion_event_at_most_once_witness :
  let user := Completion.mk_callable false 0 (Py.Return tt) in
  let s := Completion.run true user 7 (Completion.__init__ 7 ∅) [Completion.Complete] in
  Completion.invoked (Completion.cancel 7 s) = Completion.invoked s
  ∧ Completion.invoked
      (Nat.iter 3 (Completion._notify user 7)
         (Completion.cancel 7 (Completion.__init__ 7 ∅))) = 0%nat.
Proof.
  intros user s.
  pose proof (completion_event_at_most_once true user 7 ∅) as (_ & _ & H3 & H4).
  split.
  - apply (H4 [Completion.Complete]). reflexivity.
  - rewrite (H3 (Completion.cancel 7 (Completion.__init__ 7 ∅)) 3%nat); reflexivity.
Defined.

(** A completion that is not cancelled does run the callback, with the
    event as argument when the callback takes one. *)
Example completion_fires :
  Completion.invoked
    (Completion.run false (Completion.mk_callable false 1 (Py.Return tt)) 7
       (Completion.__init__ 7 ∅) [Completion.Complete; Completion.Complete; Completion.Abort])
  = 1%nat.
Proof. reflexivity. Qed.

Example completion_cancelled :
  Completion.invoked
    (Completion.run true (Completion.mk_callable false 0 (Py.Return tt)) 7
       (Completion.__init__ 7 ∅) [Completion.Cancel; Completion.Complete; Completion.Abort])
  = 0%nat.
Proof. reflexivity. Qed.

(** ** Synchronous search *)

Section SearchFacts.
Import Py View Search.

Variable progress : Z -> Z -> bool.
Variable on_match : Z -> bytes -> bool.

(** The match callback is called on hits only, in scan order, each hit
    at most once. *)
Lemma calls_prefix (scan : list scan_event) :
  (BNFindAllDataWithProgress scan progress on_match).2 `prefix_of` hits scan.
Proof.
  induction scan as [|[cur total|addr m] rest IH]; simpl.
  - done.
  - destruct (progress cur total); [done|]. apply prefix_nil.
  - destruct (on_match addr m); simpl.
    + by apply prefix_cons.
    + apply prefix_cons, prefix_nil.
Qed.

(** Every call but the last was answered true. *)
Lemma calls_continue (scan : list scan_event) (i : nat) (a : Z) (m : bytes) :
  (BNFindAllDataWithProgress scan progress on_match).2 !! i = Some (a, m) ->
  (S i < length (BNFindAllDataWithProgress scan progress on_match).2)%nat ->
  on_match a m = true.
Proof.
  revert i. induction scan as [|[cur total|addr m'] rest IH]; intros i; simpl.
  - done.
  - destruct (progress cur total); [apply IH|done].
  - destruct (on_match addr m') eqn:E; simpl.
    + destruct i as [|i]; simpl.
      * by intros [= <- <-].
      * intros H1 H2. apply (IH i H1). lia.
    + destruct i as [|i]; simpl; [lia|done].
Qed.

(** The result tells whether the callback was called at all. *)
Lemma found_iff_called (scan : list scan_event) :
  (BNFindAllDataWithProgress scan progress on_match).1
  = negb (Nat.eqb (length (BNFindAllDataWithProgress scan progress on_match).2) 0).
Proof.
  induction scan as [|[cur total|addr m] rest IH]; simpl.
  - done.
  - by destruct (progress cur total).
  - by destruct (on_match addr m).
Qed.

(** The match callback is called on nothing that lies behind a progress
    report answered false. *)
Lemma calls_prefix_reached (scan : list scan_event) :
  (BNFindAllDataWithProgress scan progress on_match).2
    `prefix_of` hits (reached scan progress).
Proof.
  induction scan as [|[cur total|addr m] rest IH]; simpl.
  - done.
  - destruct (progress cur total); [done|]. apply prefix_nil.
  - destruct (on_match addr m); simpl.
    + by apply prefix_cons.
    + apply prefix_cons, prefix_nil.
Qed.

(** The calls end before a hit that was reached only when the last call
    was answered false. *)
Lemma calls_stop_reason (scan : list scan_event) :
  (length (BNFindAllDataWithProgress scan progress on_match).2
   < length (hits (reached scan progress)))%nat ->
  ∃ a m, last (BNFindAllDataWithProgress scan progress on_match).2 = Some (a, m)
         ∧ on_match a m = false.
Proof.
  induction scan as [|[cur total|addr m] rest IH]; simpl.
  - lia.
  - destruct (progress cur total); simpl; [done|lia].
  - destruct (on_match addr m) eqn:E; simpl.
    + intros Hlt. destruct IH as (a & m' & Hl & Ha); [lia|].
      exists a, m'. split; [|done].
      destruct (BNFindAllDataWithProgress rest progress on_match).2; [done|].
      by rewrite last_cons_cons.
    + intros _. by exists addr, m.
Qed.

Lemma reached_hits_prefix (scan : list scan_event) :
  hits (reached scan progress) `prefix_of` hits scan.
Proof.
  induction scan as [|[cur total|addr m] rest IH]; simpl.
  - done.
  - destruct (progress cur total); [done|]. apply prefix_nil.
  - by apply prefix_cons.
Qed.

(** The result tells whether a hit was reached. *)
Lemma found_iff_reached (scan : list scan_event) :
  (BNFindAllDataWithProgress scan progress on_match).1
  = negb (Nat.eqb (length (hits (reached scan progress))) 0).
Proof.
  induction scan as [|[cur total|addr m] rest IH]; simpl.
  - done.
  - by destruct (progress cur total).
  - by destruct (on_match addr m).
Qed.

End SearchFacts.

Lemma reached_all (scan : list Search.scan_event) :
  Search.reached scan (fun _ _ => true) = scan.
Proof.
  induction scan as [|[cur total|addr m] rest IH]; simpl; [done|..]; by rewrite IH.
Qed.

Lemma is_False_spec (x : Search.pyval) :
  Search.is_False x = true ↔ x = Search.PyBool false.
Proof. destruct x as [|[]| |]; simpl; split; congruence. Qed.

(** C5.  With a match callback, [find_all_data] calls it once for each
    hit the search reaches, in scan order and with the hit's address and
    value, up to and including the first hit the callback answers
    [False] on, and on nothing else: the calls are a prefix of the hits
    that precede the first progress report answered false, a call
    answered [False] is the last one, and the calls end early only
    after such an answer.  The value returned tells whether a match was
    found, that is whether a hit was reached, which is whether the
    callback was called.  So a callback that always answers [False] is
    called exactly once when a match is reached, and a callback that
    never answers [False] sees every hit reached; without a progress
    function every hit of the range is reached. *)
Theorem find_all_data_callback_contract
    (scan_of : Z -> Z -> View.bytes -> Search.FindFlag -> list Search.scan_event)
    (start_ end_ : Z) (buf : View.bytes) (f : Search.FindFlag)
    (progress_func : option (Z -> Z -> Search.pyval))
    (cb : Z -> View.bytes -> Search.pyval) :
  let scan := scan_of start_ end_ buf f in
  let continue_ := fun cur total =>
    match progress_func with
    | Some p => Search.truthy (p cur total)
    | None => true
    end in
  let reach := Search.hits (Search.reached scan continue_) in
  ∃ (found : bool) (called : list (Z * View.bytes)),
    Search.find_all_data scan_of start_ end_ (View.PyBytes buf) (Search.Flags f)
      progress_func (Some cb)
    = (Py.Return (Search.Found found), called)
    ∧ called `prefix_of` reach
    ∧ reach `prefix_of` Search.hits scan
    ∧ (∀ i a m, called !! i = Some (a, m) -> cb a m = Search.PyBool false ->
                length called = S i)
    ∧ ((length called < length reach)%nat ->
       ∃ a m, last called = Some (a, m) ∧ cb a m = Search.PyBool false)
    ∧ found = negb (Nat.eqb (length reach) 0)
    ∧ found = negb (Nat.eqb (length called) 0)
    ∧ ((∀ a m, cb a m = Search.PyBool false) -> called = take 1 reach)
    ∧ ((∀ a m, Search.is_False (cb a m) = false) -> called = reach)
    ∧ (progress_func = None -> reach = Search.hits scan).
Proof.
  intros scan continue_ reach. unfold Search.find_all_data. fold scan.
  assert (Search.progress_func_obj progress_func = continue_) as Hpo
    by (by destruct progress_func).
  rewrite Hpo.
  destruct (Search.BNFindAllDataWithProgress scan continue_
              (Search.match_callback_obj cb)) as [found called] eqn:E.
  exists found, called. split; [done|].
  pose proof (calls_prefix_reached continue_ (Search.match_callback_obj cb) scan) as Hp.
  pose proof (found_iff_called continue_ (Search.match_callback_obj cb) scan) as Hf.
  pose proof (found_iff_reached continue_ (Search.match_callback_obj cb) scan) as Hfr.
  pose proof (calls_continue continue_ (Search.match_callback_obj cb) scan) as Hc.
  pose proof (calls_stop_reason continue_ (Search.match_callback_obj cb) scan) as Hs.
  rewrite E in Hp, Hf, Hfr, Hc, Hs. simpl in Hp, Hf, Hfr, Hc, Hs. fold reach in Hp, Hfr, Hs.
  assert (∀ i a m, called !! i = Some (a, m) -> cb a m = Search.PyBool false ->
                   length called = S i) as Hlast.
  { intros i a m Hi Hfalse.
    apply lookup_lt_Some in Hi as Hlt.
    destruct (decide (S i < length called)%nat) as [Hlt'|]; [|lia].
    specialize (Hc i a m Hi Hlt'). unfold Search.match_callback_obj in Hc.
    rewrite Hfalse in Hc. done. }
  assert ((length called < length reach)%nat ->
          ∃ a m, last called = Some (a, m) ∧ cb a m = Search.PyBool false) as Hstop.
  { intros Hlt. destruct (Hs Hlt) as (a & m & Hl & Ha). exists a, m. split; [done|].
    unfold Search.match_callback_obj in Ha. apply negb_false_iff in Ha.
    by apply is_False_spec. }
  assert (reach `prefix_of` Search.hits scan) as Hrp by apply reached_hits_prefix.
  assert (progress_func = None -> reach = Search.hits scan) as Hnone.
  { intros ->. unfold reach, continue_. by rewrite reached_all. }
  clearbody reach.
  split; [done|]. split; [done|].
  split; [done|]. split; [done|]. split; [done|]. split; [done|].
  split; [|split; [|done]].
  - intros Hall. destruct called as [|[a m] rest].
    + destruct reach as [|h t]; [done|]. exfalso.
      destruct Hstop as (a & m & Hl & _); [simpl; lia|done].
    + pose proof (Hlast 0%nat a m eq_refl (Hall a m)) as Hlen.
      destruct rest; [|done]. by destruct Hp as [k ->].
  - intros Hnever. apply prefix_length_eq; [done|].
    destruct (decide (length called < length reach)%nat) as [Hlt|]; [|lia].
    destruct (Hstop Hlt) as (a & m & _ & Ha).
    specialize (Hnever a m). by rewrite Ha in Hnever.
Qed.

Lemma find_all_data_callback_contract_witness :
  let scan_of := fun (_ _ : Z) (_ : View.bytes) (_ : Search.FindFlag) =>
    [Search.Progress 0 3; Search.Hit 0x1000 [Byte.x41]; Search.Hit 0x1004 [Byte.x41];
     Search.Progress 2 3; Search.Hit 0x2000 [Byte.x41]] in
  let until_2 := fun cur _ : Z => if cur <? 2 then Search.PyBool true else Search.PyNone in
  (∃ (found : bool) (called : list (Z * View.bytes)),
     Search.find_all_data scan_of 0 0x3000 (View.PyBytes [Byte.x41])
       (Search.Flags Search.FindCaseSensitive) None
       (Some (fun _ _ => Search.PyBool false))
     = (Py.Return (Search.Found found), called)
     ∧ called = [(0x1000, [Byte.x41])] ∧ found = true)
  ∧ (∃ (found : bool) (called : list (Z * View.bytes)),
       Search.find_all_data scan_of 0 0x3000 (View.PyBytes [Byte.x41])
         (Search.Flags Search.FindCaseSensitive) (Some until_2)
         (Some (fun _ _ => Search.PyNone))
       = (Py.Return (Search.Found found), called)
       ∧ called = [(0x1000, [Byte.x41]); (0x1004, [Byte.x41])] ∧ found = true).
Proof.
  intros scan_of until_2. split.
  - destruct (find_all_data_callback_contract scan_of 0 0x3000 [Byte.x41]
                Search.FindCaseSensitive None (fun _ _ => Search.PyBool false))
      as (found & called & Heq & _ & _ & _ & _ & Hfound & _ & Hone & _).
    exists found, called. split; [exact Heq|].
    split; [exact (Hone (fun _ _ => eq_refl))|exact Hfound].
  - destruct (find_all_data_callback_contract scan_of 0 0x3000 [Byte.x41]
                Search.FindCaseSensitive (Some until_2) (fun _ _ => Search.PyNone))
      as (found & called & Heq & _ & _ & _ & _ & Hfound & _ & _ & Hall & _).
    exists found, called. split; [exact Heq|].
    split; [exact (Hall (fun _ _ => eq_refl))|exact Hfound].
Defined.

(** A callback that forgets to return a value does not stop the search. *)
Example find_all_data_none_continues :
  Search.find_all_data
    (fun _ _ _ _ => [Search.Hit 1 [Byte.x41]; Search.Hit 5 [Byte.x41]])
    0 16 (View.PyBytes [Byte.x41]) (Search.Flags Search.FindCaseSensitive) None
    (Some (fun _ _ => Search.PyNone))
  = (Py.Return (Search.Found true), [(1, [Byte.x41]); (5, [Byte.x41])]).
Proof. reflexivity. Qed.

Example find_all_data_no_match :
  Search.find_all_data (fun _ _ _ _ => [Search.Progress 0 1])
    0 16 (View.PyBytes [Byte.x41]) (Search.Flags Search.FindCaseSensitive) None
    (Some (fun _ _ => Search.PyBool false))
  = (Py.Return (Search.Found false), []).
Proof. reflexivity. Qed.

(** ** Streaming search: every interleaving of worker and consumer *)

Section GeneratorFacts.
Import Search.
Context {A : Type}.
Implicit Types (g : QueueGenerator A) (sched : list agent).

Lemma run_cons g a sched : run g (a :: sched) = run (step g a) sched.
Proof. done. Qed.

Lemma run_snoc g sched1 sched2 : run g (sched1 ++ sched2) = run (run g sched1) sched2.
Proof. apply foldl_app. Qed.

Lemma coherent_start (work : list (option A)) : coherent (__init__ work).
Proof. done. Qed.

Lemma worker_step_coherent g : coherent g -> coherent (worker_step g).
Proof.
  destruct g as [al td rs w pub del]. unfold coherent, worker_step. simpl.
  intros (Hq & Htd & Hw). destruct al; [|done].
  destruct td as [|[x|] rest]; simpl.
  - split; [done|]. split; [done|]. destruct w; try done. by destruct Hw.
  - split; [by rewrite Hq, app_assoc|]. split; [done|].
    destruct w; try done.
    + by destruct rs.
    + by destruct Hw.
  - split; [done|]. split; [done|]. destruct w; try done. by destruct Hw.
Qed.

Lemma consumer_step_coherent g : coherent g -> coherent (__next__ g).
Proof.
  destruct g as [al td rs w pub del]. unfold coherent, __next__. simpl.
  intros (Hq & Htd & Hw).
  destruct w; simpl; try done.
  - destruct rs; simpl; done.
  - destruct rs as [|x rest]; simpl; [done|].
    split; [by rewrite <- app_assoc|]. split; [done|]. by eexists.
  - destruct al; simpl; done.
  - destruct rs; simpl; done.
Qed.

Lemma run_coherent sched g : coherent g -> coherent (run g sched).
Proof.
  revert g. induction sched as [|a sched IH]; intros g H; [done|].
  rewrite run_cons. apply IH. destruct a; simpl.
  - by apply worker_step_coherent.
  - by apply consumer_step_coherent.
Qed.

Lemma step_ended g a :
  ended g -> ended (step g a) ∧ delivered (step g a) = delivered g
             ∧ published (step g a) = published g.
Proof.
  destruct g as [al td rs w pub del]. unfold ended. simpl.
  intros (-> & -> & Hw). destruct a; simpl; [by unfold worker_step|].
  unfold __next__. simpl.
  destruct Hw as [-> | [-> | [-> | ->]]]; simpl; auto 10.
Qed.

Lemma run_ended sched g :
  ended g -> ended (run g sched) ∧ delivered (run g sched) = delivered g
             ∧ published (run g sched) = published g.
Proof.
  revert g. induction sched as [|a sched IH]; intros g H; [done|].
  rewrite run_cons. destruct (step_ended g a H) as (H1 & H2 & H3).
  destruct (IH _ H1) as (H4 & H5 & H6). split; [done|]. split; congruence.
Qed.

(** While the thread is alive and the queue empty, a call of [__next__]
    goes round its loop. *)
Lemma consumer_spins g n :
  coherent g -> alive g = true -> results g = [] ->
  where_ (run g (repeat Consumer (S n))) = AtEmpty
  ∨ where_ (run g (repeat Consumer (S n))) = AtAlive.
Proof.
  intros Hc Ha Hr.
  assert (∀ n g, alive g = true -> results g = [] ->
            where_ g = AtEmpty ∨ where_ g = AtAlive ->
            where_ (run g (repeat Consumer n)) = AtEmpty
            ∨ where_ (run g (repeat Consumer n)) = AtAlive) as Hloop.
  { clear. induction n as [|n IH]; intros g Ha Hr Hw; [done|].
    simpl repeat. rewrite run_cons. apply IH.
    - destruct g as [al td rs w pub del]. simpl in *. subst.
      unfold __next__. simpl. destruct Hw as [-> | ->]; done.
    - destruct g as [al td rs w pub del]. simpl in *. subst.
      unfold __next__. simpl. destruct Hw as [-> | ->]; done.
    - destruct g as [al td rs w pub del]. simpl in *. subst.
      unfold __next__. simpl. destruct Hw as [-> | ->]; auto. }
  simpl repeat. rewrite run_cons. apply Hloop.
  - destruct g as [al td rs w pub del]. simpl in *. subst.
    unfold __next__. simpl. by destruct w.
  - destruct g as [al td rs w pub del]. simpl in *. subst.
    unfold __next__. simpl. by destruct w.
  - destruct g as [al td rs w pub del]. simpl in *. subst.
    destruct Hc as (_ & _ & Hw). simpl in Hw.
    unfold __next__. simpl. destruct w; simpl; auto; try done.
    all: by destruct Hw.
Qed.

(** With a match queued, the consumer on its own returns the oldest one
    within four steps. *)
Lemma consumer_returns g x rest :
  coherent g -> results g = x :: rest ->
  ∃ n, (n < 4)%nat ∧ where_ (run g (repeat Consumer (S n))) = Returned x.
Proof.
  destruct g as [al td rs w pub del]. intros (_ & _ & Hw) Hr.
  simpl in *. subst rs.
  destruct w, al; simpl in Hw;
    first [ by destruct Hw
          | congruence
          | by (exists 0%nat; split; [lia|])
          | by (exists 1%nat; split; [lia|])
          | by (exists 2%nat; split; [lia|])
          | by (exists 3%nat; split; [lia|]) ].
Qed.

(** With the thread dead and the queue drained, the consumer on its own
    ends the sequence within four steps. *)
Lemma consumer_stops g :
  coherent g -> alive g = false -> results g = [] ->
  ∃ n, (n < 4)%nat ∧ where_ (run g (repeat Consumer (S n))) = Stopped.
Proof.
  destruct g as [al td rs w pub del]. intros (_ & _ & Hw) Ha Hr.
  simpl in *. subst.
  destruct w; simpl in Hw;
    first [ done
          | by (exists 0%nat; split; [lia|])
          | by (exists 1%nat; split; [lia|])
          | by (exists 2%nat; split; [lia|])
          | by (exists 3%nat; split; [lia|]) ].
Qed.

End GeneratorFacts.

(** C6.  In every interleaving of the worker thread and the consumer
    that starts from a fresh generator: matches are handed out in the
    order they were published; a call of [__next__] returns only a match
    that was published; the sequence ends only when the thread is dead
    and the queue drained, with every published match delivered, and
    from then on every further call ends again without a match.  While
    the thread is alive and the queue is empty a call keeps polling; as
    soon as a match is queued the call returns it, and as soon as the
    thread is dead and the queue drained the call ends the sequence. *)
Theorem queue_generator_contract (A : Type) (work : list (option A))
    (sched : list Search.agent) :
  let g := Search.run (Search.__init__ work) sched in
  Search.published g = Search.delivered g ++ Search.results g
  ∧ (∀ x, Search.where_ g = Search.Returned x ->
          ∃ before, Search.delivered g = before ++ [x])
  ∧ (Search.where_ g = Search.Stopped ->
       Search.alive g = false ∧ Search.results g = []
       ∧ Search.delivered g = Search.published g
       ∧ ∀ more,
           Search.delivered (Search.run g more) = Search.delivered g
           ∧ Search.published (Search.run g more) = Search.published g
           ∧ ∀ x, Search.where_ (Search.run g more) ≠ Search.Returned x)
  ∧ (Search.alive g = true -> Search.results g = [] ->
       ∀ n, Search.where_ (Search.run g (repeat Search.Consumer (S n))) = Search.AtEmpty
            ∨ Search.where_ (Search.run g (repeat Search.Consumer (S n))) = Search.AtAlive)
  ∧ (∀ x rest, Search.results g = x :: rest ->
       ∃ n, (n < 4)%nat
            ∧ Search.where_ (Search.run g (repeat Search.Consumer (S n)))
              = Search.Returned x)
  ∧ (Search.alive g = false -> Search.results g = [] ->
       ∃ n, (n < 4)%nat
            ∧ Search.where_ (Search.run g (repeat Search.Consumer (S n)))
              = Search.Stopped).
Proof.
  intros g.
  assert (Search.coherent g) as Hc.
  { apply run_coherent, coherent_start. }
  pose proof Hc as (Hq & Htd & Hw).
  split; [done|]. split; [|split; [|split; [|split]]].
  - intros x Hx. by rewrite Hx in Hw.
  - intros Hs. rewrite Hs in Hw. destruct Hw as [Ha Hr].
    split; [done|]. split; [done|]. split.
    { by rewrite Hq, Hr, app_nil_r. }
    intros more.
    assert (Search.ended g) as He by (repeat split; auto).
    destruct (run_ended more g He) as ((_ & _ & Hpc) & Hd & Hp).
    split; [done|]. split; [done|]. intros x Hx. rewrite Hx in Hpc.
    by destruct Hpc as [?|[?|[?|?]]].
  - intros Ha Hr n. by apply consumer_spins.
  - intros x rest Hr. by apply (consumer_returns g x rest).
  - intros Ha Hr. by apply consumer_stops.
Qed.

Lemma queue_generator_contract_witness :
  let g := Search.run (Search.__init__ [Some 1; Some 2])
             (repeat Search.Worker 3 ++ repeat Search.Consumer 10) in
  Search.delivered g = Search.published g
  ∧ Search.published g = [1; 2]
  ∧ ∀ more, Search.delivered (Search.run g more) = Search.delivered g.
Proof.
  intros g.
  pose proof (queue_generator_contract Z [Some 1; Some 2]
                (repeat Search.Worker 3 ++ repeat Search.Consumer 10))
    as (_ & _ & Hstop & _).
  destruct (Hstop eq_refl) as (_ & _ & Hd & Hmore).
  split; [exact Hd|]. split; [reflexivity|].
  intros more. exact (proj1 (Hmore more)).
Defined.

(** The generator built by the streaming form of [find_all_data], under
    a schedule in which the consumer starts polling before the first hit
    is published. *)
Example find_all_data_streaming :
  ∃ g, (Search.find_all_data
          (fun _ _ _ _ => [Search.Hit 1 [Byte.x41]; Search.Progress 1 2; Search.Hit 5 [Byte.x41]])
          0 16 (View.PyBytes [Byte.x41]) (Search.Flags Search.FindCaseSensitive)
          None None).1 = Py.Return (Search.Streaming g)
       ∧ Search.where_ (Search.run g (repeat Search.Consumer 6)) = Search.AtAlive
       ∧ Search.where_
           (Search.run g (repeat Search.Consumer 2 ++ [Search.Worker]
                          ++ repeat Search.Consumer 3))
         = Search.Returned (1, [Byte.x41])
       ∧ Search.delivered
           (Search.run g (repeat Search.Worker 3 ++ repeat Search.Consumer 10))
         = [(1, [Byte.x41]); (5, [Byte.x41])].
Proof. eexists. split; [reflexivity|]. split; [reflexivity|]. split; reflexivity. Qed.

(** ** Type parsing *)

Section ParserFacts.
Import TypeParser.

(** What the loop that fills a table leaves under a name: the type of
    the last entry of that name. *)
Lemma fill_lookup (platform : option Z) (entries : list BNQualifiedNameAndType)
    (q : QualifiedName) :
  fill platform entries !! q
  = (fun e => mk_type (qnt_type e) platform)
      <$> last (filter (fun e => qnt_name e = q) entries).
Proof.
  induction entries as [|e entries IH] using rev_ind; [done|].
  unfold fill. rewrite foldl_app. simpl. fold (fill platform entries).
  rewrite filter_app, filter_cons, filter_nil.
  destruct (decide (qnt_name e = q)) as [<-|Hn].
  - by rewrite lookup_insert_eq, last_snoc.
  - by rewrite lookup_insert_ne, app_nil_r.
Qed.

End ParserFacts.

(** C8.  For a string argument, [parse_type_string] and
    [parse_types_from_string] raise [SyntaxError] with message [msg]
    exactly when the parser rejects the text with message [msg]; when
    the parser accepts, they do not raise: [parse_type_string] returns
    the pair of the parsed type and its name, and
    [parse_types_from_string] returns the three tables of the parsed
    types, variables and functions, each holding under every parsed name
    the type of the last entry of that name, made for the view's
    platform, and nothing under any other name. *)
Theorem parse_errors_from_parser
    (BNParseTypeString : string -> TypeParser.parse_outcome TypeParser.BNQualifiedNameAndType)
    (BNParseTypesString : string -> TypeParser.parse_outcome TypeParser.BNTypeParserResult)
    (platform : option Z) (s : string) :
  (∀ msg,
     TypeParser.parse_type_string BNParseTypeString platform (TypeParser.Text s)
       = Py.Raise (Py.mk_exn Py.SyntaxError msg)
     ↔ BNParseTypeString s = TypeParser.ParseFailed (Some msg))
  ∧ (∀ r,
       BNParseTypeString s = TypeParser.ParseOk r ->
       TypeParser.parse_type_string BNParseTypeString platform (TypeParser.Text s)
       = Py.Return (TypeParser.mk_type (TypeParser.qnt_type r) platform,
                    TypeParser.qnt_name r))
  ∧ (∀ msg,
       TypeParser.parse_types_from_string BNParseTypesString platform (TypeParser.Text s)
         = Py.Raise (Py.mk_exn Py.SyntaxError msg)
       ↔ BNParseTypesString s = TypeParser.ParseFailed (Some msg))
  ∧ (∀ r,
       BNParseTypesString s = TypeParser.ParseOk r ->
       let table := fun (entries : list TypeParser.BNQualifiedNameAndType)
                        (q : TypeParser.QualifiedName) =>
         (fun e => TypeParser.mk_type (TypeParser.qnt_type e) platform)
           <$> last (filter (fun e => TypeParser.qnt_name e = q) entries) in
       ∃ res,
         TypeParser.parse_types_from_string BNParseTypesString platform
           (TypeParser.Text s) = Py.Return res
         ∧ ∀ q,
             TypeParser.res_types res !! q = table (TypeParser.types r) q
             ∧ TypeParser.res_variables res !! q = table (TypeParser.variables r) q
             ∧ TypeParser.res_functions res !! q = table (TypeParser.functions r) q).
Proof.
  unfold TypeParser.parse_type_string, TypeParser.parse_types_from_string.
  split; [|split; [|split]].
  - intros msg. destruct (BNParseTypeString s) as [r|[e|]]; split; try done.
    + by intros [= ->].
    + by intros [= ->].
  - by intros r ->.
  - intros msg. destruct (BNParseTypesString s) as [r|[e|]]; split; try done.
    + by intros [= ->].
    + by intros [= ->].
  - intros r ->. eexists. split; [done|].
    intros q. simpl. by rewrite !fill_lookup.
Qed.

Lemma parse_errors_from_parser_witness :
  let accept := fun _ : string =>
    TypeParser.ParseOk (TypeParser.mk_qnt ["foo"] 42) in
  let reject := fun _ : string =>
    @TypeParser.ParseFailed TypeParser.BNTypeParserResult (Some "syntax error") in
  let tables := fun _ : string =>
    TypeParser.ParseOk
      (TypeParser.mk_parse
         [TypeParser.mk_qnt ["bas"] 1; TypeParser.mk_qnt ["bas"] 2]
         [TypeParser.mk_qnt ["foo"] 3]
         [TypeParser.mk_qnt ["bar"] 4]) in
  TypeParser.parse_type_string accept None (TypeParser.Text "int foo")
  = Py.Return (TypeParser.mk_type 42 None, ["foo"])
  ∧ TypeParser.parse_types_from_string reject None (TypeParser.Text "int")
    = Py.Raise (Py.mk_exn Py.SyntaxError "syntax error")
  ∧ ∃ res,
      TypeParser.parse_types_from_string tables (Some 7) (TypeParser.Text "struct bas;")
      = Py.Return res
      ∧ TypeParser.res_types res !! ["bas"] = Some (TypeParser.mk_type 2 (Some 7))
      ∧ TypeParser.res_variables res !! ["foo"] = Some (TypeParser.mk_type 3 (Some 7))
      ∧ TypeParser.res_functions res !! ["bar"] = Some (TypeParser.mk_type 4 (Some 7))
      ∧ TypeParser.res_functions res !! ["foo"] = None.
Proof.
  intros accept reject tables.
  pose proof (parse_errors_from_parser accept reject None "int foo") as (_ & H2 & _).
  pose proof (parse_errors_from_parser accept reject None "int") as (_ & _ & H3 & _).
  pose proof (parse_errors_from_parser accept tables (Some 7) "struct bas;")
    as (_ & _ & _ & H4).
  split; [|split].
  - apply (H2 (TypeParser.mk_qnt ["foo"] 42)). reflexivity.
  - apply (proj2 (H3 "syntax error")). reflexivity.
  - destruct (H4 _ eq_refl) as (res & Hres & Hq).
    exists res. split; [exact Hres|].
    split; [exact (proj1 (Hq ["bas"]))|].
    split; [exact (proj1 (proj2 (Hq ["foo"])))|].
    split; [exact (proj2 (proj2 (Hq ["bar"])))|].
    exact (proj2 (proj2 (Hq ["foo"]))).
Defined.

(** Later entries of the same name replace earlier ones. *)
Example fill_last_wins :
  TypeParser.fill None [TypeParser.mk_qnt ["a"] 1; TypeParser.mk_qnt ["a"] 2] !! ["a"]
  = Some (TypeParser.mk_type 2 None).
Proof. reflexivity. Qed.

(** A failure without message trips the assertion instead. *)
Example parse_no_message :
  TypeParser.parse_type_string (fun _ => TypeParser.ParseFailed None) None
    (TypeParser.Text "int")
  = Py.Raise (Py.mk_exn Py.AssertionError
                "core.BNParseTypeString returned 'errors' set to None").
Proof. reflexivity. Qed.

(** ** Analysis progress snapshots *)

Section AnalysisFacts.
Import Py Analysis.

Lemma make_active_list_spec (l : list BNActiveAnalysisInfo) (c : core) :
  blocks (make_active_list l c).2 = blocks c
  ∧ live_info (make_active_list l c).2 = live_info c
  ∧ live_progress (make_active_list l c).2 = live_progress c
  ∧ length (make_active_list l c).1 = length l
  ∧ ∀ m, map (view_active m) (make_active_list l c).1 = map snapshot_active l.
Proof.
  revert c. induction l as [|a rest IH]; intros c; simpl; [done|].
  unfold make_active. simpl.
  match goal with |- context [make_active_list rest ?c1] =>
    destruct (IH c1) as (H1 & H2 & H3 & H4 & H5);
    destruct (make_active_list rest c1) as [xs c2] end.
  simpl in *. repeat split; try done.
  - by rewrite H4.
  - intros m. by rewrite H5.
Qed.

Lemma fresh_block_unused (c : core) : blocks c !! fresh (dom (blocks c)) = None.
Proof. apply not_elem_of_dom, is_fresh. Qed.

End AnalysisFacts.

(** C9.  [analysis_info] returns an object that shows the scheduler's
    state as it was at the call: state, analysis time and, entry by
    entry, the functions under analysis with their counters.  Every
    integer in it is the object's own, so the object shows the same
    values whatever the native memory holds later; the block obtained
    from the core is given back and the scheduler's state is not
    touched.  [analysis_progress] likewise returns the progress at the
    call as values of its own. *)
Theorem analysis_queries_are_snapshots (c : Analysis.core) :
  (∃ r c',
     Analysis.analysis_info c = (Py.Return r, c')
     ∧ Analysis.live_info c' = Analysis.live_info c
     ∧ Analysis.live_progress c' = Analysis.live_progress c
     ∧ Analysis.blocks c' = Analysis.blocks c
     ∧ length (Analysis._active_info r)
       = length (Analysis.activeInfo (Analysis.live_info c))
     ∧ ∀ later : gmap positive Analysis.BNAnalysisInfo,
         Analysis.view_info later r = Analysis.snapshot_info (Analysis.live_info c))
  ∧ (∀ later : gmap positive Analysis.BNAnalysisInfo,
       Analysis.view_progress later (Analysis.analysis_progress c)
       = Analysis.snapshot_progress (Analysis.live_progress c)).
Proof.
  split; [|done].
  unfold Analysis.analysis_info, Analysis.BNGetAnalysisInfo. simpl.
  rewrite lookup_insert_eq.
  match goal with |- context [Analysis.make_active_list ?l ?c1] =>
    destruct (make_active_list_spec l c1) as (H1 & H2 & H3 & H4 & H5);
    destruct (Analysis.make_active_list l c1) as [xs c2] end.
  simpl in *. eexists _, _. split; [reflexivity|]. simpl.
  repeat split; try done.
  - rewrite H1. rewrite delete_insert_eq. apply delete_id, fresh_block_unused.
  - intros later. unfold Analysis.view_info, Analysis.snapshot_info. simpl.
    by rewrite H5.
Qed.

(** A returned object keeps its values while the scheduler moves on. *)
Example analysis_info_keeps_values :
  let c := Analysis.mk_core
             (Analysis.mk_info Analysis.AnalyzeState 120
                [Analysis.mk_active 0x401000 30 2 1])
             (Analysis.mk_progress Analysis.AnalyzeState 3 10) ∅ [] in
  let later := {[ 1%positive := Analysis.mk_info Analysis.IdleState 999 [] ]} in
  ∃ r c', Analysis.analysis_info c = (Py.Return r, c')
          ∧ Analysis.view_info later r
            = (Analysis.AnalyzeState, Some 120, [(0x401000, Some 30, Some 2, Some 1)])
          ∧ Analysis.function_refs c' = [0x401000].
Proof. eexists _, _. split; [reflexivity|]. split; reflexivity. Qed.

(** ** String lookups *)

Section StringFacts.
Import Py Strings.

(** One turn of the loop. *)
Lemma ascii_loop_unfold (max_length : option Z) (len : Z) (c : option Z)
    (br : list Byte.byte) :
  ascii_loop max_length len c br
  = match c with
    | None => (len, c)
    | Some v =>
        if (0 <? v) && (v <=? 0x7f) then
          if bool_decide (Some len = max_length) then (len, c)
          else ascii_loop max_length (len + 1) (read8 br).1 (read8 br).2
        else (len, c)
    end.
Proof. destruct br; destruct c; try done; simpl; by repeat case_match. Qed.

(** The loop entered on the reader [s]: its first byte read, the rest
    still to read. *)
Lemma ascii_loop_spec (max_length : option Z) (s : list Byte.byte) (len : Z) :
  ∃ n : nat,
    (ascii_loop max_length len (read8 s).1 (read8 s).2).1 = len + Z.of_nat n
    ∧ (ascii_loop max_length len (read8 s).1 (read8 s).2).2 = byte_value <$> s !! n
    ∧ (n <= length s)%nat
    ∧ Forall ascii_char (take n s)
    ∧ (∀ m, max_length = Some m -> len ≤ m -> len + Z.of_nat n ≤ m)
    ∧ (max_length = None -> ∀ b, s !! n = Some b -> ¬ ascii_char b).
Proof.
  revert len. induction s as [|b rest IH]; intros len.
  - exists 0%nat. rewrite ascii_loop_unfold. simpl.
    repeat split; try done; try lia; intros; lia.
  - rewrite ascii_loop_unfold. cbn [read8 fst snd].
    destruct ((0 <? byte_value b) && (byte_value b <=? 127)) eqn:E.
    + destruct (bool_decide (Some len = max_length)) eqn:Em.
      * apply bool_decide_eq_true in Em. exists 0%nat. simpl.
        split; [lia|]. split; [done|]. split; [lia|]. split; [done|]. split.
        -- intros m Hm _. rewrite Hm in Em. injection Em as <-. lia.
        -- intros Hn. rewrite Hn in Em. done.
      * apply bool_decide_eq_false in Em.
        assert (ascii_char b) as Hb by (unfold ascii_char; lia).
        destruct (IH (len + 1)) as (n & H1 & H2 & H3 & H4 & H5 & H6).
        exists (S n). rewrite H1, H2. simpl.
        split; [lia|]. split; [done|]. split; [lia|]. split; [by constructor|].
        split; [|done].
        intros m Hm Hle.
        assert (len ≠ m) by (intros ->; by rewrite Hm in Em).
        specialize (H5 m Hm). lia.
    + exists 0%nat. simpl.
      split; [lia|]. split; [done|]. split; [lia|]. split; [done|]. split.
      * intros; lia.
      * intros _ b' [= <-]. unfold ascii_char. lia.
Qed.

(** On a reader that starts with the characters [s] and then a byte that
    is none, the loop counts exactly [s], unless [max_length] cuts it. *)
Lemma ascii_loop_run (max_length : option Z) (s : list Byte.byte) (b0 : Byte.byte)
    (rest : list Byte.byte) (len : Z) :
  Forall ascii_char s -> ¬ ascii_char b0 ->
  (∀ m, max_length = Some m -> m < len ∨ len + Z.of_nat (length s) ≤ m) ->
  ascii_loop max_length len (read8 (s ++ b0 :: rest)).1 (read8 (s ++ b0 :: rest)).2
  = (len + Z.of_nat (length s), Some (byte_value b0)).
Proof.
  intros Hs Hb0. revert len. induction Hs as [|b s Hb Hs IH]; intros len Hmax.
  - rewrite ascii_loop_unfold. cbn [app read8 fst snd]. unfold ascii_char in Hb0.
    destruct ((0 <? byte_value b0) && (byte_value b0 <=? 127)) eqn:E; [lia|].
    f_equal. simpl. lia.
  - rewrite ascii_loop_unfold. cbn [app read8 fst snd]. unfold ascii_char in Hb.
    replace ((0 <? byte_value b) && (byte_value b <=? 127)) with true by lia.
    rewrite bool_decide_eq_false_2.
    2:{ intros Hm. symmetry in Hm. destruct (Hmax len Hm) as [?|?]; simpl in *; lia. }
    rewrite IH.
    + f_equal. simpl. lia.
    + intros m Hm. destruct (Hmax m Hm) as [?|?]; simpl in *; lia.
Qed.

End StringFacts.

(** X1.  Whenever [get_ascii_string_at] returns a reference, the
    reference starts at the address asked for, inside the view, its
    length is at least [min_length] and at most a non-negative
    [max_length], that many bytes can be read at the address and all lie
    in 0x01..0x7f; with [require_cstring] the byte that follows is 0, and
    without [max_length] the byte that follows (if one can be read) is
    not in 0x01..0x7f. *)
Theorem get_ascii_string_at_sound (start_ end_ : Z) (reader_at : Z -> list Byte.byte)
    (a min_length : Z) (max_length : option Z) (require_cstring : bool)
    (ref : Strings.StringReference) :
  Strings.get_ascii_string_at start_ end_ reader_at (Strings.AddrInt a)
    min_length max_length require_cstring = Py.Return (Some ref) ->
  Strings.ref_type ref = Strings.AsciiString
  ∧ Strings.ref_start ref = a
  ∧ start_ ≤ a < end_
  ∧ min_length ≤ Strings.ref_length ref
  ∧ (∀ m, max_length = Some m -> 0 ≤ m -> Strings.ref_length ref ≤ m)
  ∧ ∃ n : nat,
      Strings.ref_length ref = Z.of_nat n
      ∧ (n <= length (reader_at a))%nat
      ∧ Forall Strings.ascii_char (take n (reader_at a))
      ∧ (require_cstring = true ->
         ∃ b, reader_at a !! n = Some b ∧ Strings.byte_value b = 0)
      ∧ (max_length = None ->
         ∀ b, reader_at a !! n = Some b -> ¬ Strings.ascii_char b).
Proof.
  unfold Strings.get_ascii_string_at.
  destruct ((a <? start_) || (end_ <=? a)) eqn:Hr; [done|].
  destruct (ascii_loop_spec max_length (reader_at a) 0) as (n & H1 & H2 & H3 & H4 & H5 & H6).
  destruct (Strings.read8 (reader_at a)) as [c br] eqn:Er. simpl in H1, H2.
  destruct (Strings.ascii_loop max_length 0 c br) as [len c'] eqn:El.
  simpl in H1, H2. subst len c'.
  destruct (0 + Z.of_nat n <? min_length) eqn:Hmin; [done|].
  destruct (require_cstring && _) eqn:Hc; [done|].
  intros [= <-]. simpl.
  split; [done|]. split; [done|]. split; [lia|]. split; [lia|]. split.
  { intros m Hm Hle. by apply H5. }
  exists n. split; [lia|]. split; [done|]. split; [done|]. split; [|done].
  intros ->. simpl in Hc. apply negb_false_iff, bool_decide_eq_true in Hc.
  destruct (reader_at a !! n) as [b|]; [|done].
  exists b. split; [done|]. simpl in Hc. by injection Hc.
Qed.

Lemma get_ascii_string_at_sound_witness :
  let reader_at := fun _ : Z => [Byte.x41; Byte.x42; Byte.x43; Byte.x44; Byte.x00; Byte.x45] in
  ∃ n : nat,
    4 = Z.of_nat n
    ∧ (n <= 6)%nat
    ∧ Forall Strings.ascii_char (take n (reader_at 0x1000))
    ∧ ∃ b, reader_at 0x1000 !! n = Some b ∧ Strings.byte_value b = 0.
Proof.
  intros reader_at.
  destruct (get_ascii_string_at_sound 0x1000 0x2000 reader_at 0x1000 4 None true
              (Strings.mk_ref Strings.AsciiString 0x1000 4) eq_refl)
    as (_ & _ & _ & _ & _ & n & Hn & Hle & Hall & Hz & _).
  exists n. split; [exact Hn|]. split; [exact Hle|]. split; [exact Hall|].
  exact (Hz eq_refl).
Defined.

(** X2.  If, at an address inside the view, the bytes that can be read
    are [s] (each in 0x01..0x7f) followed by a byte outside that range,
    [s] is at least [min_length] long and [max_length], when given, is
    negative or not below the length of [s], then [get_ascii_string_at]
    returns the reference of length [len(s)] at that address, provided
    the following byte is 0 or [require_cstring] is off. *)
Theorem get_ascii_string_at_complete (start_ end_ : Z) (reader_at : Z -> list Byte.byte)
    (a min_length : Z) (max_length : option Z) (require_cstring : bool)
    (s : list Byte.byte) (b0 : Byte.byte) (rest : list Byte.byte) :
  start_ ≤ a < end_ ->
  reader_at a = s ++ b0 :: rest ->
  Forall Strings.ascii_char s ->
  ¬ Strings.ascii_char b0 ->
  min_length ≤ Z.of_nat (length s) ->
  (∀ m, max_length = Some m -> m < 0 ∨ Z.of_nat (length s) ≤ m) ->
  (require_cstring = true -> Strings.byte_value b0 = 0) ->
  Strings.get_ascii_string_at start_ end_ reader_at (Strings.AddrInt a)
    min_length max_length require_cstring
  = Py.Return (Some (Strings.mk_ref Strings.AsciiString a (Z.of_nat (length s)))).
Proof.
  intros Ha Hr Hs Hb0 Hmin Hmax Hc.
  unfold Strings.get_ascii_string_at.
  replace ((a <? start_) || (end_ <=? a)) with false by lia.
  pose proof (ascii_loop_run max_length s b0 rest 0 Hs Hb0) as Hrun.
  rewrite <- Hr in Hrun.
  destruct (Strings.read8 (reader_at a)) as [c br]. simpl in Hrun.
  rewrite Hrun by (intros m Hm; destruct (Hmax m Hm); lia).
  replace (0 + Z.of_nat (length s) <? min_length) with false by lia.
  destruct require_cstring; simpl.
  - rewrite Hc by done. simpl. do 3 f_equal. 
  - do 3 f_equal. 
Qed.

Lemma get_ascii_string_at_complete_witness :
  Strings.get_ascii_string_at 0x1000 0x2000
    (fun _ => [Byte.x41; Byte.x42; Byte.x43; Byte.x44; Byte.x00; Byte.x45])
    (Strings.AddrInt 0x1000) 4 (Some 10) true
  = Py.Return (Some (Strings.mk_ref Strings.AsciiString 0x1000 4)).
Proof.
  apply (get_ascii_string_at_complete 0x1000 0x2000 _ 0x1000 4 (Some 10) true
           [Byte.x41; Byte.x42; Byte.x43; Byte.x44] Byte.x00 [Byte.x45]).
  - lia.
  - reflexivity.
  - repeat (apply Forall_cons_2; [unfold Strings.ascii_char; vm_compute; split; congruence|]).
    apply Forall_nil_2.
  - unfold Strings.ascii_char. vm_compute. intros [H _]. discriminate H.
  - simpl. lia.
  - intros m [= <-]. right. simpl. lia.
  - reflexivity.
Defined.

(** A string cut by [max_length] is not a C string unless the byte after
    the cut is 0. *)
Example get_ascii_string_at_cut :
  let reader_at := fun _ : Z =>
    [Byte.x41; Byte.x42; Byte.x43; Byte.x44; Byte.x45; Byte.x00] in
  Strings.get_ascii_string_at 0 16 reader_at (Strings.AddrInt 0) 2 (Some 3) true
  = Py.Return None
  ∧ Strings.get_ascii_string_at 0 16 reader_at (Strings.AddrInt 0) 2 (Some 3) false
    = Py.Return (Some (Strings.mk_ref Strings.AsciiString 0 3)).
Proof. split; reflexivity. Qed.

(** X3.  A reference returned by [get_string_at] has the type of the
    string the core found on the address and ends where that string
    ends.  A partial lookup of an ASCII string starts at the address
    asked for; every other lookup starts where the string starts.  For a
    string that is not ASCII the warning is logged, whether or not a
    partial reference was asked for, and for an ASCII string it is
    not. *)
Theorem get_string_at_keeps_end
    (BNGetStringAtAddress : Z -> option Strings.BNStringReference)
    (addr : Z) (partial : bool) (ref : Strings.StringReference) (warned : list Z) :
  Strings.get_string_at BNGetStringAtAddress addr partial = (Some ref, warned) ->
  ∃ s, BNGetStringAtAddress addr = Some s
    ∧ Strings.ref_type ref = Strings.str_type s
    ∧ Strings.ref_start ref + Strings.ref_length ref
      = Strings.str_start s + Strings.str_length s
    ∧ Strings.ref_start ref
      = (if partial && bool_decide (Strings.str_type s = Strings.AsciiString)
         then addr else Strings.str_start s)
    ∧ warned
      = (if bool_decide (Strings.str_type s = Strings.AsciiString) then [] else [addr]).
Proof.
  unfold Strings.get_string_at.
  destruct (BNGetStringAtAddress addr) as [s|]; [|done].
  intros [= <- <-]. exists s. split; [done|]. simpl.
  destruct partial, (bool_decide (Strings.str_type s = Strings.AsciiString));
    simpl; repeat split; lia.
Qed.

Lemma get_string_at_keeps_end_witness :
  let found := Strings.mk_str_ref Strings.AsciiString 0x403028 0x12 in
  ∃ s, Some found = Some s
    ∧ Strings.AsciiString = Strings.str_type s
    ∧ 0x40302f + 0xb = Strings.str_start s + Strings.str_length s
    ∧ 0x40302f
      = (if true && bool_decide (Strings.str_type s = Strings.AsciiString)
         then 0x40302f else Strings.str_start s)
    ∧ [] = (if bool_decide (Strings.str_type s = Strings.AsciiString)
            then [] else [0x40302f]).
Proof.
  intros found.
  apply (get_string_at_keeps_end (fun _ => Some found) 0x40302f true
           (Strings.mk_ref Strings.AsciiString 0x40302f 0xb) []).
  reflexivity.
Defined.

(** ** Completion of names *)

Section CompleterFacts.
Import Py Completer.
#[local] Set Warnings "-clear-no-such-hyp".

Lemma string_app_cons (x : Ascii.ascii) (a b : string) :
  String x a +:+ b = String x (a +:+ b).
Proof. reflexivity. Qed.

Lemma string_app_assoc (a b c : string) : (a +:+ b) +:+ c = a +:+ (b +:+ c).
Proof.
  induction a as [|x a IH]; [done|]. by rewrite !string_app_cons, IH.
Qed.

(** [word[:len(text)] == text] says that [word] begins with [text]. *)
Lemma slice_to_prefix (text word : string) :
  slice_to (String.length text) word = text ↔ ∃ rest, word = text +:+ rest.
Proof.
  unfold slice_to. revert word. induction text as [|c t IH]; intros word.
  - split; [intros _; by exists word|]. intros _. by destruct word.
  - destruct word as [|c' w]; simpl.
    + split; [done|]. by intros [rest ?].
    + split.
      * intros [= -> Hw]. apply IH in Hw as [rest ->]. by exists rest.
      * intros [rest Hr]. rewrite string_app_cons in Hr. injection Hr as -> ->.
        f_equal. apply IH. by exists rest.
Qed.

Lemma keyword_step_begins (text : string) (a : acc) (word : string) :
  begins_with text a -> begins_with text (keyword_step text a word).
Proof.
  destruct a as [ms seen]. unfold keyword_step, begins_with.
  case_bool_decide as Hp; [|done]. simpl. intros Ha m Hm.
  apply elem_of_app in Hm as [Hm|Hm]; [by apply Ha|].
  apply list_elem_of_singleton in Hm as ->.
  apply slice_to_prefix in Hp as [rest ->].
  repeat case_match; rewrite ?string_app_assoc; by eexists.
Qed.

Lemma item_step_begins (text : string) (a : acc) (item : string * pyobj) :
  begins_with text a -> begins_with text (item_step text a item).
Proof.
  destruct a as [ms seen], item as [word val]. unfold item_step, begins_with.
  destruct (bool_decide (slice_to _ word = text)) eqn:Hp; [|done].
  destruct (negb _); [|done]. simpl. intros Ha m Hm.
  apply elem_of_app in Hm as [Hm|Hm]; [by apply Ha|].
  apply list_elem_of_singleton in Hm as ->.
  apply bool_decide_eq_true, slice_to_prefix in Hp as [rest ->].
  unfold _callable_postfix. case_match; rewrite ?string_app_assoc; by eexists.
Qed.

Lemma foldl_begins {A} (f : acc -> A -> acc) (text : string) (l : list A) (a : acc) :
  (∀ a x, begins_with text a -> begins_with text (f a x)) ->
  begins_with text a -> begins_with text (foldl f a l).
Proof. intros Hf. revert a. induction l as [|x l IH]; intros a Ha; simpl; auto. Qed.

(** The item loop never drops a match, and [seen] only grows by the
    keys it walks. *)
Lemma item_step_keeps (text : string) (a : acc) (item : string * pyobj) (m : string) :
  m ∈ a.1 -> m ∈ (item_step text a item).1.
Proof.
  destruct a as [ms seen], item as [word val]. unfold item_step.
  case_match; simpl; [|done]. intros. apply elem_of_app. by left.
Qed.

Lemma item_loop_keeps (text : string) (l : dict) (a : acc) (m : string) :
  m ∈ a.1 -> m ∈ (foldl (item_step text) a l).1.
Proof.
  revert a. induction l as [|x l IH]; intros a Ha; simpl; [done|].
  by apply IH, item_step_keeps.
Qed.

Lemma item_loop_seen (text : string) (l : dict) (a : acc) (w : string) :
  w ∈ (foldl (item_step text) a l).2 -> w ∈ a.2 ∨ w ∈ l.*1.
Proof.
  revert a. induction l as [|[word val] l IH]; intros [ms seen]; simpl; [by left|].
  intros Hw. apply IH in Hw as [Hw|Hw].
  - case_match; simpl in Hw; [|by left].
    apply elem_of_union in Hw as [Hw|Hw]; [|by left].
    apply elem_of_singleton in Hw as ->. right. by left.
  - right. by right.
Qed.

Lemma keyword_loop_seen (text : string) (l : list string) (a : acc) (w : string) :
  w ∈ (foldl (keyword_step text) a l).2 -> w ∈ a.2 ∨ w ∈ l.
Proof.
  revert a. induction l as [|word l IH]; intros [ms seen]; simpl; [by left|].
  intros Hw. apply IH in Hw as [Hw|Hw].
  - case_bool_decide; simpl in Hw; [|by left].
    apply elem_of_union in Hw as [Hw|Hw]; [|by left].
    apply elem_of_singleton in Hw as ->. right. by left.
  - right. by right.
Qed.

(** A key not seen before the loop, and occurring once, is completed
    with its own value. *)
Lemma item_loop_offers (text : string) (l : dict) (a : acc) (word : string)
    (val : pyobj) :
  NoDup l.*1 -> (word, val) ∈ l ->
  slice_to (String.length text) word = text -> word ∉ a.2 ->
  _callable_postfix val word ∈ (foldl (item_step text) a l).1.
Proof.
  intros Hnd Hin Hp Hseen.
  apply list_elem_of_split in Hin as (l1 & l2 & ->).
  rewrite foldl_app. simpl. apply item_loop_keeps.
  destruct (foldl (item_step text) a l1) as [ms seen] eqn:E. simpl.
  assert (word ∉ seen) as Hs.
  { intros Hw. change seen with (ms, seen).2 in Hw. rewrite <- E in Hw.
    apply item_loop_seen in Hw as [Hw|Hw]; [done|].
    rewrite fmap_app in Hnd. apply NoDup_app in Hnd as (_ & Hd & _).
    apply (Hd word Hw). simpl. by left. }
  rewrite bool_decide_eq_true_2 by done.
  rewrite bool_decide_eq_false_2 by done. simpl.
  apply elem_of_app. right. by apply list_elem_of_singleton.
Qed.

(** What the two loops compute. *)
Lemma keyword_loop_length (text : string) (l : list string) (a : acc) :
  length (foldl (keyword_step text) a l).1
  = (length a.1
     + length (filter (λ w, slice_to (String.length text) w = text) l))%nat
  ∧ (foldl (keyword_step text) a l).2
    = a.2 ∪ list_to_set (filter (λ w, slice_to (String.length text) w = text) l).
Proof.
  revert a. induction l as [|word l IH]; intros [ms seen]; simpl.
  - split; [lia|set_solver].
  - rewrite filter_cons. case_bool_decide as Hp.
    + destruct (IH (ms ++ [if bool_decide (word ∈ ["finally"; "try"]) then word +:+ ":"
                           else if negb (bool_decide (word ∈ ["False"; "None"; "True";
                                          "break"; "continue"; "pass"; "else"]))
                                then word +:+ " " else word],
                    {[word]} ∪ seen)) as [-> ->].
      rewrite decide_True by done. simpl. rewrite length_app. simpl.
      split; [lia|set_solver].
    + destruct (IH (ms, seen)) as [-> ->]. by rewrite decide_False by done.
Qed.

Lemma item_loop_length (text : string) (l : dict) (a : acc) :
  (foldl (item_step text) a l).2
  = a.2 ∪ filter (λ w, slice_to (String.length text) w = text) (list_to_set l.*1)
  ∧ length (foldl (item_step text) a l).1
    = (length a.1 + size ((foldl (item_step text) a l).2 ∖ a.2))%nat.
Proof.
  revert a. induction l as [|[word val] l IH]; intros [ms seen]; simpl.
  - split; [set_solver|].
    replace (seen ∖ seen) with (∅ : gset string) by set_solver.
    rewrite size_empty. lia.
  - destruct (bool_decide (slice_to _ word = text)) eqn:Hp; simpl.
    + apply bool_decide_eq_true in Hp.
      destruct (bool_decide (word ∈ seen)) eqn:Hs; simpl.
      * apply bool_decide_eq_true in Hs.
        destruct (IH (ms, seen)) as [-> ->]. simpl. split; [set_solver|done].
      * apply bool_decide_eq_false in Hs.
        destruct (IH (ms ++ [_callable_postfix val word], {[word]} ∪ seen)) as [E ->].
        rewrite E. simpl. split; [set_solver|].
        rewrite length_app. simpl.
        set (F := filter _ (list_to_set l.*1)).
        replace (({[word]} ∪ seen ∪ F) ∖ seen)
          with ({[word]} ∪ ({[word]} ∪ seen ∪ F) ∖ ({[word]} ∪ seen)).
        2:{ apply set_eq. intros x. destruct (decide (x = word)); set_solver. }
        set (R := ({[word]} ∪ seen ∪ F) ∖ ({[word]} ∪ seen)).
        assert (size ({[word]} ∪ R) = (1 + size R)%nat) as ->; [|lia].
        rewrite <- (size_singleton (C:=gset string) word).
        apply size_union. set_solver.
    + apply bool_decide_eq_false in Hp.
      destruct (IH (ms, seen)) as [-> ->]. simpl. split; [set_solver|done].
Qed.

(** For a state that is not negative, [matches[state]] is the plain
    list lookup. *)
Lemma item_or_none_nat (ms : list string) (k : nat) :
  item_or_none ms (Z.of_nat k) = ms !! k.
Proof.
  unfold item_or_none. destruct (decide (k < length ms)%nat) as [Hk|Hk].
  - replace ((0 <=? Z.of_nat k) && (Z.of_nat k <? Z.of_nat (length ms))) with true by lia.
    by rewrite Nat2Z.id.
  - replace ((0 <=? Z.of_nat k) && (Z.of_nat k <? Z.of_nat (length ms))) with false by lia.
    replace ((- Z.of_nat (length ms) <=? Z.of_nat k) && (Z.of_nat k <? 0)) with false by lia.
    symmetry. apply lookup_ge_None. lia.
Qed.

End CompleterFacts.

(** X4.  Every completion that [global_matches] returns begins with the
    text that was to be completed. *)
Theorem global_matches_begin_with_text (kwlist : list string)
    (builtins self_namespace : Completer.dict) (text m : string) :
  m ∈ Completer.global_matches kwlist builtins self_namespace text ->
  ∃ rest, m = text +:+ rest.
Proof.
  unfold Completer.global_matches. intros Hm.
  eapply (foldl_begins (Completer.item_step text)); [apply item_step_begins| |exact Hm].
  apply foldl_begins; [apply item_step_begins|].
  apply foldl_begins; [apply keyword_step_begins|].
  intros x Hx. simpl in Hx. by apply elem_of_nil in Hx.
Qed.

Lemma global_matches_begin_with_text_witness :
  ∃ rest, "print(*args, **kwargs)" = "pr" +:+ rest.
Proof.
  apply (global_matches_begin_with_text ["pass"; "raise"]
           [("print", Completer.mk_obj true false (Some "(*args, **kwargs)"))]
           [("x", Completer.mk_obj false false None)] "pr").
  vm_compute. by left.
Defined.

(** X5.  A name of the namespace that begins with the text, is not a
    keyword and is not [__builtins__] is offered, completed with the
    signature of its own value; so is such a name of the built-ins that
    the namespace does not define. *)
Theorem global_matches_offers_names (kwlist : list string)
    (builtins self_namespace : Completer.dict) (text word : string)
    (val : Completer.pyobj) :
  NoDup self_namespace.*1 -> NoDup builtins.*1 ->
  (word, val) ∈ self_namespace
  ∨ ((word, val) ∈ builtins ∧ word ∉ self_namespace.*1) ->
  (∃ rest, word = text +:+ rest) ->
  word ∉ kwlist -> word ≠ "__builtins__" ->
  Completer._callable_postfix val word
    ∈ Completer.global_matches kwlist builtins self_namespace text.
Proof.
  intros Hns Hb Hin Hp Hkw Hbi. apply slice_to_prefix in Hp.
  unfold Completer.global_matches.
  assert (word ∉ (foldl (Completer.keyword_step text) ([], {["__builtins__"]}) kwlist).2)
    as Hs0.
  { intros Hw. apply keyword_loop_seen in Hw as [Hw|Hw]; [|done].
    simpl in Hw. by apply elem_of_singleton in Hw. }
  destruct Hin as [Hin|[Hin Hnot]].
  - apply item_loop_keeps. by apply item_loop_offers.
  - apply item_loop_offers; [done..|].
    intros Hw. apply item_loop_seen in Hw as [Hw|Hw]; done.
Qed.

Lemma global_matches_offers_names_witness :
  "len(obj, /)" ∈ Completer.global_matches ["lambda"; "pass"]
    [("len", Completer.mk_obj true false (Some "(obj, /)"));
     ("list", Completer.mk_obj true true None)]
    [("left", Completer.mk_obj false false None)] "le".
Proof.
  apply (global_matches_offers_names ["lambda"; "pass"]
           [("len", Completer.mk_obj true false (Some "(obj, /)"));
            ("list", Completer.mk_obj true true None)]
           [("left", Completer.mk_obj false false None)] "le" "len"
           (Completer.mk_obj true false (Some "(obj, /)"))).
  - apply NoDup_singleton.
  - apply (bool_decide_unpack _); vm_compute; exact I.
  - right. split; [by left|]. apply (bool_decide_unpack _); vm_compute; exact I.
  - by exists "n".
  - apply (bool_decide_unpack _); vm_compute; exact I.
  - discriminate.
Defined.

(** X6.  No name is offered twice.  [global_matches] returns one
    completion for every keyword occurrence that begins with the text,
    and one for every distinct name of the namespace or of the built-ins
    that begins with it and is neither a keyword nor [__builtins__]; a
    name defined in both is counted once. *)
Theorem global_matches_each_name_once (kwlist : list string)
    (builtins self_namespace : Completer.dict) (text : string) :
  let begins := λ w, Completer.slice_to (String.length text) w = text in
  length (Completer.global_matches kwlist builtins self_namespace text)
  = (length (filter begins kwlist)
     + size (filter begins
               ((list_to_set (self_namespace.*1 ++ builtins.*1) : gset string)
                ∖ ({["__builtins__"]} ∪ list_to_set kwlist))))%nat.
Proof.
  intros begins. unfold Completer.global_matches.
  set (a0 := foldl (Completer.keyword_step text) ([], {["__builtins__"]}) kwlist).
  set (a1 := foldl (Completer.item_step text) a0 self_namespace).
  destruct (keyword_loop_length text kwlist ([], {["__builtins__"]})) as [L0 S0].
  destruct (item_loop_length text self_namespace a0) as [S1 L1].
  destruct (item_loop_length text builtins a1) as [S2 L2].
  fold a0 in L0, S0. fold a1 in L1, S1. fold begins in L0, S0, S1, S2.
  simpl in L0, S0.
  rewrite L2, L1, L0. rewrite <- Nat.add_assoc. f_equal.
  rewrite <- size_union
    by (apply elem_of_disjoint; intros y; rewrite !elem_of_difference; tauto).
  f_equal.
  apply set_eq. intros x. rewrite S2, S1, S0.
  rewrite list_to_set_app_L.
  destruct (decide (x ∈ self_namespace.*1)) as [Hd|Hd];
    set_unfold; rewrite ?list_elem_of_filter; unfold begins; tauto.
Qed.

(** X7.  After [complete(text, 0)] on a new completer, for a [text] that
    is not blank and has no dot, [complete(text, k)] returns the [k]-th
    completion of [global_matches] for k = 0, 1, 2, ... and [None] from
    the number of completions on, and leaves the completer as it is.
    For k > 0 the answer is the same whatever non-blank text is passed:
    the list is the one computed by the last call with state 0. *)
Theorem complete_enumerates (kwlist : list string)
    (builtins main_dict : Completer.dict) (strip : string -> string)
    (attr_matches : Completer.dict -> string -> list string)
    (arg : option Completer.dict) (text text' : string) (k : nat) :
  strip text ≠ "" -> Completer.has_dot text = false ->
  strip text' ≠ "" -> (k = 0%nat -> text' = text) ->
  let complete := Completer.complete kwlist builtins main_dict strip attr_matches in
  let ms := Completer.global_matches kwlist builtins (default main_dict arg) text in
  let self1 := (complete (Completer.__init__ arg) text 0).2 in
  complete self1 text' (Z.of_nat k) = (Py.Return (ms !! k), self1).
Proof.
  intros Hb Hd Hb' Hk complete ms self1.
  assert (self1 = Completer.mk_state (bool_decide (arg = None))
                    (Some (default main_dict arg)) (Some ms)) as ->.
  { unfold self1, complete, Completer.complete, ms.
    rewrite bool_decide_eq_false_2 by done.
    destruct arg as [d|]; simpl; by rewrite Hd. }
  unfold complete, Completer.complete.
  rewrite bool_decide_eq_false_2 by done.
  destruct k as [|k].
  - rewrite (Hk eq_refl). change (Z.of_nat 0 =? 0) with true.
    destruct arg as [d|]; simpl; rewrite Hd; by rewrite (item_or_none_nat _ 0).
  - destruct (Z.of_nat (S k) =? 0) eqn:E; [apply Z.eqb_eq in E; lia|].
    rewrite <- (item_or_none_nat ms (S k)).
    by destruct arg as [d|].
Qed.

Lemma complete_enumerates_witness :
  let complete :=
    Completer.complete ["pass"; "print"]
      [("property", Completer.mk_obj true true None)]
      [("prefix", Completer.mk_obj false false None)]
      (fun s => s) (fun _ _ => []) in
  let self1 := (complete (Completer.__init__ None) "pr" 0).2 in
  complete self1 "other" 2 = (Py.Return (Some "property"), self1).
Proof.
  apply (complete_enumerates ["pass"; "print"]
           [("property", Completer.mk_obj true true None)]
           [("prefix", Completer.mk_obj false false None)]
           (fun s => s) (fun _ _ => []) None "pr" "other" 2).
  - discriminate.
  - reflexivity.
  - discriminate.
  - discriminate.
Defined.

(** Before the first call with state 0 there is no list to index: a
    call with another state raises [AttributeError]. *)
Example complete_before_state_0 (kwlist : list string)
    (builtins main_dict : Completer.dict) (strip : string -> string)
    (attr_matches : Completer.dict -> string -> list string)
    (arg : option Completer.dict) (text : string) (st : Z) :
  strip text ≠ "" -> st ≠ 0 ->
  (Completer.complete kwlist builtins main_dict strip attr_matches
     (Completer.__init__ arg) text st).1
  = Py.Raise (Py.mk_exn Py.AttributeError
                "'Completer' object has no attribute 'matches'").
Proof.
  intros Hb Hst. unfold Completer.complete.
  rewrite bool_decide_eq_false_2 by done.
  replace (st =? 0) with false by lia. by destruct arg.
Qed.

(** ** Assignment through an index *)

Section AssignFacts.
Import Py View Assign.

Lemma str_bytes_length (s : string) : length (str_bytes s) = String.length s.
Proof.
  unfold str_bytes. rewrite length_map.
  induction s as [|c s IH]; simpl; [done|by rewrite IH].
Qed.

(** The bounds of a slice after [indices(self.end)] and the adjustment
    of [stop]. *)
Lemma slice_bounds (v : CoreView) (lo hi : option Z) :
  let a := (slice_indices lo hi (end_ v)).1 in
  let b := (slice_indices lo hi (end_ v)).2 in
  0 ≤ a ≤ end_ v ∧ 0 ≤ (if b <? a then a else b) - a
  ∧ a + ((if b <? a then a else b) - a) ≤ end_ v.
Proof.
  pose proof (end_nonneg v) as He. simpl.
  pose proof (clamp_bound_range (end_ v) 0 lo He ltac:(lia)).
  pose proof (clamp_bound_range (end_ v) (end_ v) hi He ltac:(lia)).
  case_match; lia.
Qed.

End AssignFacts.

Ltac all_within :=
  repeat (apply Forall_cons_2; [simpl; lia|]); apply Forall_nil_2.

(** X8.  A slice assignment stays inside the view: every native call it
    makes addresses the range from 0 to [end], a removal never has a
    negative length and never reaches past [end], and a write never
    reaches past [end].  When it succeeds it has made either one write,
    or one removal followed by one insertion at the same address of
    data whose length differs from the length removed. *)
Theorem setitem_slice_in_bounds (BNWriteViewBuffer BNInsertViewBuffer : Z -> View.bytes -> Z)
    (BNRemoveViewData : Z -> Z -> Z) (len_other : Py.result Z)
    (v : View.CoreView) (lo hi : option Z) (value : View.pydata)
    (r : Py.result unit) (tr : list Assign.mutation) :
  Assign.__setitem__ BNWriteViewBuffer BNInsertViewBuffer BNRemoveViewData len_other
    v (View.IdxSlice lo hi None) value = (r, tr) ->
  Forall (Assign.within (View.end_ v)) tr
  ∧ (r = Py.Return () ->
     (∃ a bs, tr = [Assign.Written a bs])
     ∨ (∃ a n bs, tr = [Assign.Removed a n; Assign.Inserted a bs]
                  ∧ Z.of_nat (length bs) ≠ n)).
Proof.
  pose proof (slice_bounds v lo hi) as Hb. cbv zeta in Hb.
  unfold Assign.__setitem__.
  destruct (View.slice_indices lo hi (View.end_ v)) as [a b] eqn:Es.
  cbn [fst snd] in Hb. destruct Hb as (Ha & Hw & He).
  set (stop := if b <? a then a else b) in *.
  destruct value as [bs|bs|s|]; simpl.
  - destruct (Z.of_nat (length bs) =? stop - a) eqn:El; simpl; intros [= <- <-].
    + split; [|intros _; left; eauto]. all_within.
    + split; [|intros _; right; exists a, (stop - a), bs; split; [done|lia]].
      all_within.
  - destruct (Z.of_nat (length bs) =? stop - a) eqn:El; simpl; intros [= <- <-].
    + split; [|intros _; left; eauto]. all_within.
    + split; [|intros _; right; exists a, (stop - a), bs; split; [done|lia]].
      all_within.
  - pose proof (str_bytes_length s) as Hs.
    destruct (Z.of_nat (String.length s) =? stop - a) eqn:El; simpl; intros [= <- <-].
    + split; [|intros _; left; eauto]. all_within.
    + split; [|intros _; right; exists a, (stop - a), (View.str_bytes s); split; [done|lia]].
      all_within.
  - destruct len_other as [n|e]; [|intros [= <- <-]; split; [apply Forall_nil_2|done]].
    destruct (n =? stop - a); simpl; intros [= <- <-].
    + split; [apply Forall_nil_2|done].
    + split; [|done]. all_within.
Qed.

Lemma setitem_slice_in_bounds_witness :
  Forall (Assign.within (View.end_ View.two_segments))
    [Assign.Removed 0x1000 4; Assign.Inserted 0x1000 [Byte.x41; Byte.x42]].
Proof.
  apply (setitem_slice_in_bounds (fun _ _ => 0) (fun _ _ => 0) (fun _ _ => 0)
           (Py.Return 0) View.two_segments (Some 0x1000) (Some 0x1004)
           (View.PyBytes [Byte.x41; Byte.x42]) (Py.Return ())).
  reflexivity.
Defined.

(** X9.  A slice assignment is not all-or-nothing.  When the value is of
    a type that [insert] refuses and its length differs from the length
    of the slice, the bytes of the slice have been removed by the time
    [TypeError] is raised, and nothing has been inserted. *)
Theorem setitem_slice_removes_before_type_error
    (BNWriteViewBuffer BNInsertViewBuffer : Z -> View.bytes -> Z)
    (BNRemoveViewData : Z -> Z -> Z)
    (v : View.CoreView) (lo hi : option Z) (n : Z) :
  let a := View.clamp_bound (View.end_ v) 0 lo in
  let b := View.clamp_bound (View.end_ v) (View.end_ v) hi in
  n ≠ Z.max a b - a ->
  Assign.__setitem__ BNWriteViewBuffer BNInsertViewBuffer BNRemoveViewData (Py.Return n)
    v (View.IdxSlice lo hi None) View.PyOther
  = (Py.Raise (Py.mk_exn Py.TypeError "Must be bytes, bytearray, or str"),
     [Assign.Removed a (Z.max a b - a)]).
Proof.
  intros a b Hn. unfold Assign.__setitem__, View.slice_indices. fold a b. simpl.
  assert ((if b <? a then a else b) = Z.max a b) as -> by (case_match; lia).
  destruct (n =? Z.max a b - a) eqn:E; [lia|done].
Qed.

Lemma setitem_slice_removes_before_type_error_witness :
  Assign.__setitem__ (fun _ _ => 0) (fun _ _ => 0) (fun _ _ => 0) (Py.Return 2)
    View.two_segments (View.IdxSlice (Some 0x1000) (Some 0x1004) None) View.PyOther
  = (Py.Raise (Py.mk_exn Py.TypeError "Must be bytes, bytearray, or str"),
     [Assign.Removed 0x1000 4]).
Proof.
  apply (setitem_slice_removes_before_type_error (fun _ _ => 0) (fun _ _ => 0)
           (fun _ _ => 0) View.two_segments (Some 0x1000) (Some 0x1004) 2).
  vm_compute. discriminate.
Defined.

(** X10.  An assignment to an integer index makes at most one native
    call, the write of a single byte, and never inserts or removes.  It
    succeeds exactly when that write reports one byte written.  The byte
    goes to the index itself, which lies between [start] and [end], or,
    for a negative index, to [len + index], which lies between 0 and
    [len].  In every other case an exception is raised before any
    call. *)
Theorem setitem_int_single_write (BNWriteViewBuffer BNInsertViewBuffer : Z -> View.bytes -> Z)
    (BNRemoveViewData : Z -> Z -> Z) (len_other : Py.result Z)
    (v : View.CoreView) (i : Z) (value : View.pydata)
    (r : Py.result unit) (tr : list Assign.mutation) :
  Assign.__setitem__ BNWriteViewBuffer BNInsertViewBuffer BNRemoveViewData len_other
    v (View.IdxInt i) value = (r, tr) ->
  (tr = [] ∧ ∃ e, r = Py.Raise e)
  ∨ ∃ a bs, tr = [Assign.Written a bs] ∧ length bs = 1%nat
      ∧ (r = Py.Return () ↔ BNWriteViewBuffer a bs = 1)
      ∧ ((0 ≤ i ∧ a = i ∧ View.start v ≤ i < View.end_ v)
         ∨ (i < 0 ∧ ∃ n, View.len v = Py.Return n ∧ a = n + i ∧ 0 ≤ a < n)).
Proof.
  assert (∀ a r tr,
    Assign.write_one BNWriteViewBuffer len_other a value = (r, tr) ->
    (tr = [] ∧ ∃ e, r = Py.Raise e)
    ∨ ∃ bs, tr = [Assign.Written a bs] ∧ length bs = 1%nat
        ∧ (r = Py.Return () ↔ BNWriteViewBuffer a bs = 1)) as Hone.
  { intros a r0 tr0. unfold Assign.write_one.
    pose proof str_bytes_length as Hs.
    destruct value as [bs|bs|s|]; simpl.
    - destruct (Z.of_nat (length bs) =? 1) eqn:E; simpl;
        [|intros [= <- <-]; left; eauto].
      destruct (BNWriteViewBuffer a bs =? 1) eqn:Ew; simpl; intros [= <- <-];
        right; exists bs; (split; [done|]); (split; [lia|]); split; try done; lia.
    - destruct (Z.of_nat (length bs) =? 1) eqn:E; simpl;
        [|intros [= <- <-]; left; eauto].
      destruct (BNWriteViewBuffer a bs =? 1) eqn:Ew; simpl; intros [= <- <-];
        right; exists bs; (split; [done|]); (split; [lia|]); split; try done; lia.
    - destruct (Z.of_nat (String.length s) =? 1) eqn:E; simpl;
        [|intros [= <- <-]; left; eauto].
      specialize (Hs s).
      destruct (BNWriteViewBuffer a (View.str_bytes s) =? 1) eqn:Ew; simpl;
        intros [= <- <-]; right; exists (View.str_bytes s);
        (split; [done|]); (split; [lia|]); split; try done; lia.
    - destruct len_other as [n|e]; [|intros [= <- <-]; left; eauto].
      destruct (n =? 1); simpl; intros [= <- <-]; left; eauto. }
  unfold Assign.__setitem__.
  destruct (i <? 0) eqn:Hneg.
  - destruct (View.len v) as [n|e] eqn:El; [|intros [= <- <-]; left; eauto].
    destruct (- n <=? i) eqn:Hr; [|intros [= <- <-]; left; eauto].
    intros H.
    destruct (Hone (n + i) r tr) as [?|(bs & ? & ? & ?)].
    { unfold Assign.write_one. revert H.
      destruct (Assign.len_value len_other value) as [m|e]; [|done].
      by destruct (negb (m =? 1)). }
    + by left.
    + right. exists (n + i), bs. repeat (split; [done|]).
      right. split; [lia|]. exists n. repeat split; lia.
  - destruct ((View.start v <=? i) && (i <? View.end_ v)) eqn:Hr;
      [|intros [= <- <-]; left; eauto].
    intros H. destruct (Hone i r tr H) as [?|(bs & ? & ? & ?)]; [by left|].
    right. exists i, bs. repeat (split; [done|]). left. lia.
Qed.

Lemma setitem_int_single_write_witness :
  ∃ a bs, [Assign.Written 0x100f [Byte.x5a]] = [Assign.Written a bs]
    ∧ length bs = 1%nat
    ∧ (Py.Return () = Py.Return () ↔ (fun _ _ => 1) a bs = 1)
    ∧ ((0 ≤ -1 ∧ a = -1 ∧ View.start View.two_segments ≤ -1 < View.end_ View.two_segments)
       ∨ (-1 < 0 ∧ ∃ n, View.len View.two_segments = Py.Return n
                        ∧ a = n + -1 ∧ 0 ≤ a < n)).
Proof.
  destruct (setitem_int_single_write (fun _ _ => 1) (fun _ _ => 0) (fun _ _ => 0)
              (Py.Return 0) View.two_segments (-1) (View.PyBytes [Byte.x5a])
              (Py.Return ()) [Assign.Written 0x100f [Byte.x5a]] eq_refl)
    as [[H _]|H]; [discriminate H|exact H].
Defined.

(** ** Integers from bytes *)

Section IntsFacts.
Import Py View Ints.

Lemma byte_value_range (b : Byte.byte) : 0 ≤ byte_value b < 256.
Proof.
  unfold byte_value. pose proof (Byte.to_N_bounded b). lia.
Qed.

Lemma le_value_range (data : bytes) :
  0 ≤ le_value data < 256 ^ Z.of_nat (length data).
Proof.
  induction data as [|b data IH]; simpl; [lia|].
  pose proof (byte_value_range b).
  rewrite Nat2Z.inj_succ, Z.pow_succ_r by lia. lia.
Qed.

(** Reading most significant byte first is reading the reversed bytes
    least significant byte first. *)
Lemma be_value_reverse (data : bytes) : be_value (reverse data) = le_value data.
Proof.
  unfold be_value, le_value.
  induction data as [|b data IH]; simpl; [done|].
  rewrite reverse_cons, foldl_app. simpl. rewrite IH. lia.
Qed.

Lemma be_value_range (data : bytes) :
  0 ≤ be_value data < 256 ^ Z.of_nat (length data).
Proof.
  rewrite <- (reverse_involutive data) at 1 2.
  rewrite be_value_reverse, <- (length_reverse data). apply le_value_range.
Qed.

Lemma pow_256 (n : Z) : 0 ≤ n -> 256 ^ n = 2 ^ (8 * n).
Proof. intros Hn. rewrite Z.pow_mul_r by lia. done. Qed.

End IntsFacts.

(** X11.  [read_int] returns a value only for a size of 1, 2, 4 or 8 and
    only when [read] gave exactly that many bytes.  An unsigned value
    lies in 0 .. 2^(8 size) - 1 and is the number the bytes spell in the
    byte order asked for (the view's, when none is given); a signed
    value lies in -2^(8 size - 1) .. 2^(8 size - 1) - 1 and is congruent
    to it modulo 2^(8 size). *)
Theorem read_int_value (str_of_int hex_of_int : Z -> string)
    (self_endianness : Ints.Endianness) (read : Z -> Z -> Py.result View.bytes)
    (address size : Z) (sign : bool) (endian : option Ints.Endianness) (n : Z) :
  Ints.read_int str_of_int hex_of_int self_endianness read address size sign endian
  = Ints.Value n ->
  size ∈ [1; 2; 4; 8]
  ∧ ∃ data, read address size = Py.Return data
      ∧ Z.of_nat (length data) = size
      ∧ (if sign then - 2 ^ (8 * size - 1) ≤ n < 2 ^ (8 * size - 1)
         else 0 ≤ n < 2 ^ (8 * size))
      ∧ n mod 2 ^ (8 * size)
        = match default self_endianness endian with
          | Ints.LittleEndian => Ints.le_value data
          | Ints.BigEndian => Ints.be_value data
          end.
Proof.
  unfold Ints.read_int, Ints.int_from_bytes, Ints.unpack.
  destruct (read address size) as [data|e]; [|done].
  destruct (Z.of_nat (length data) =? size) eqn:El; [|done]. cbn [negb].
  case_bool_decide as Hsz; [|done]. intros [= <-]. split; [done|].
  exists data. split; [done|]. split; [lia|].
  assert (0 < size) as Hpos.
  { repeat (apply elem_of_cons in Hsz as [->|Hsz]; [lia|]). by apply elem_of_nil in Hsz. }
  set (u := if bool_decide (Some (match endian with Some e => e | None => self_endianness end)
                            = Some Ints.LittleEndian)
            then Ints.le_value data else Ints.be_value data).
  assert (0 ≤ u < 2 ^ (8 * size)) as Hu.
  { rewrite <- pow_256 by lia. replace size with (Z.of_nat (length data)) by lia.
    unfold u. case_bool_decide; [apply le_value_range|apply be_value_range]. }
  assert (u = match default self_endianness endian with
              | Ints.LittleEndian => Ints.le_value data
              | Ints.BigEndian => Ints.be_value data
              end) as Hdef.
  { unfold u. destruct endian as [[]|], self_endianness; simpl;
      first [done | by case_bool_decide]. }
  rewrite <- Hdef.
  assert (2 ^ (8 * size) = 2 * 2 ^ (8 * size - 1)) as Hhalf.
  { rewrite <- Z.pow_succ_r by lia. f_equal. lia. }
  destruct sign; simpl.
  - destruct (2 ^ (8 * size - 1) <=? u) eqn:Ht.
    + split; [lia|].
      rewrite <- (Z.mod_unique (u - 2 ^ (8 * size)) (2 ^ (8 * size)) (-1) u); [done|lia|lia].
    + split; [lia|]. apply Z.mod_small. lia.
  - split; [lia|]. apply Z.mod_small. lia.
Qed.

Lemma read_int_value_witness :
  1 ∈ [1; 2; 4; 8]
  ∧ ∃ data, (fun _ _ : Z => Py.Return [Byte.xff]) 0x1000 1 = Py.Return data
      ∧ Z.of_nat (length data) = 1
      ∧ - 2 ^ (8 * 1 - 1) ≤ -1 < 2 ^ (8 * 1 - 1)
      ∧ -1 mod 2 ^ (8 * 1) = Ints.le_value data.
Proof.
  apply (read_int_value (fun _ => "") (fun _ => "") Ints.LittleEndian
           (fun _ _ => Py.Return [Byte.xff]) 0x1000 1 true None (-1)).
  reflexivity.
Defined.

(** X12.  The two byte orders mirror each other: converting bytes as
    little-endian gives what converting the reversed bytes as
    big-endian gives, value or error alike, and a missing byte order
    means big-endian. *)
Theorem int_from_bytes_byte_order (str_of_int : Z -> string) (data : View.bytes)
    (width : Z) (sign : bool) :
  Ints.int_from_bytes str_of_int data width sign (Some Ints.LittleEndian)
  = Ints.int_from_bytes str_of_int (reverse data) width sign (Some Ints.BigEndian)
  ∧ Ints.int_from_bytes str_of_int data width sign None
    = Ints.int_from_bytes str_of_int data width sign (Some Ints.BigEndian).
Proof.
  unfold Ints.int_from_bytes, Ints.unpack. split; [|done].
  case_bool_decide; [|done].
  rewrite length_reverse. rewrite bool_decide_eq_true_2 by done.
  rewrite bool_decide_eq_false_2 by done.
  by rewrite be_value_reverse.
Qed.

(** X22.  On a view, [read_int] needs the whole range: it returns a
    value only when the address is not negative and every address from
    [address] to [address + size - 1] is mapped; when the address and
    the size are not negative and some address of the range is not
    mapped, it raises [ValueError]. *)
Theorem read_int_needs_mapped_range (str_of_int hex_of_int : Z -> string)
    (self_endianness : Ints.Endianness) (v : View.CoreView)
    (address size : Z) (sign : bool) (endian : option Ints.Endianness) :
  let r := Ints.read_int str_of_int hex_of_int self_endianness
             (fun a n => (View.read v a n).1) address size sign endian in
  (∀ n, r = Ints.Value n ->
        0 ≤ address
        ∧ ∀ i, 0 ≤ i < size -> View.byte_at (View.segments v) (address + i) ≠ None)
  ∧ (0 ≤ address -> 0 ≤ size ->
     (∃ i, 0 ≤ i < size ∧ View.byte_at (View.segments v) (address + i) = None) ->
     ∃ msg, r = Ints.Raised (Py.mk_exn Py.ValueError msg)).
Proof.
  intros r. unfold r, Ints.read_int, View.read. split.
  - intros n. destruct ((address <? 0) || (size <? 0)) eqn:Hneg; [done|]. simpl.
    destruct (Z.of_nat (length (View.BNReadViewBuffer v address size)) =? size) eqn:El;
      [|done].
    intros _. split; [lia|]. intros i Hi.
    unfold View.BNReadViewBuffer in El.
    destruct (lookup_lt_is_Some_2
                (View.mapped_prefix (View.segments v) address (Z.to_nat size))
                (Z.to_nat i) ltac:(lia)) as [b Hb].
    apply mapped_prefix_lookup in Hb. rewrite Z2Nat.id in Hb by lia. by rewrite Hb.
  - intros Ha Hs (i & Hi & Hnone).
    replace ((address <? 0) || (size <? 0)) with false by lia. simpl.
    destruct (Z.of_nat (length (View.BNReadViewBuffer v address size)) =? size) eqn:El;
      [|by eexists].
    unfold View.BNReadViewBuffer in El.
    destruct (lookup_lt_is_Some_2
                (View.mapped_prefix (View.segments v) address (Z.to_nat size))
                (Z.to_nat i) ltac:(lia)) as [b Hb].
    apply mapped_prefix_lookup in Hb. rewrite Z2Nat.id in Hb by lia. congruence.
Qed.

Lemma read_int_needs_mapped_range_witness :
  (0 ≤ 0x1000
   ∧ ∀ i, 0 ≤ i < 4 ->
          View.byte_at (View.segments View.two_segments) (0x1000 + i) ≠ None)
  ∧ ∃ msg,
      Ints.read_int (fun _ => "") (fun _ => "") Ints.LittleEndian
        (fun a n => (View.read View.two_segments a n).1) 0x100e 4 false None
      = Ints.Raised (Py.mk_exn Py.ValueError msg).
Proof.
  split.
  - apply (proj1 (read_int_needs_mapped_range (fun _ => "") (fun _ => "")
                    Ints.LittleEndian View.two_segments 0x1000 4 false None)
             0x41414141).
    reflexivity.
  - apply (proj2 (read_int_needs_mapped_range (fun _ => "") (fun _ => "")
                    Ints.LittleEndian View.two_segments 0x100e 4 false None)).
    + lia.
    + lia.
    + exists 2. split; [lia|reflexivity].
Defined.

(** ** Registering observers *)

Section RegistryFacts.
Import Registry.

Lemma live_snoc (calls : list native_call) (c : native_call) :
  live (calls ++ [c]) = live_step (live calls) c.
Proof. unfold live. by rewrite foldl_app. Qed.

Lemma consistent_empty : consistent empty.
Proof. split; intros ? ?; unfold empty, live; simpl; by rewrite lookup_empty. Qed.

Lemma register_consistent (self : view) (notify : nat) :
  consistent self -> consistent (register_notification self notify).
Proof.
  intros [Ht Hc]. split; simpl; rewrite live_snoc; simpl.
  - intros o cb. destruct (decide (o = notify)) as [->|Ho].
    + rewrite lookup_insert_eq. intros [= <-]. by rewrite lookup_insert_eq.
    + rewrite lookup_insert_ne by done. intros Hl.
      pose proof (Hc _ _ (Ht _ _ Hl)).
      rewrite lookup_insert_ne by lia. by apply Ht.
  - intros cb o. destruct (decide (cb = created self)) as [->|Hcb].
    + lia.
    + rewrite lookup_insert_ne by done. intros Hl. pose proof (Hc _ _ Hl). lia.
Qed.

Lemma unregister_consistent (self : view) (notify : nat) :
  consistent self -> consistent (unregister_notification self notify).
Proof.
  intros [Ht Hc]. unfold unregister_notification.
  destruct (_notifications self !! notify) as [cb0|] eqn:E; [|done].
  split; simpl; rewrite live_snoc; simpl.
  - intros o cb. destruct (decide (o = notify)) as [->|Ho].
    + by rewrite lookup_delete_eq.
    + rewrite lookup_delete_ne by done. intros Hl.
      rewrite lookup_delete_ne; [by apply Ht|].
      intros <-. apply Ht in E, Hl. congruence.
  - intros cb o Hl. apply lookup_delete_Some in Hl as [_ Hl]. by eapply Hc.
Qed.

Lemma run_consistent (actions : list action) (self : view) :
  consistent self -> consistent (run self actions).
Proof.
  revert self. induction actions as [|a actions IH]; intros self Hs; [done|].
  apply IH. destruct a; [by apply register_consistent|by apply unregister_consistent].
Qed.

End RegistryFacts.

(** X13.  However observers are registered and unregistered, every
    callback object the view tracks in [_notifications] is registered
    with the core for its observer, and after
    [unregister_notification(notify)] the view tracks nothing for
    [notify]. *)
Theorem notifications_tracked_are_registered (actions : list Registry.action)
    (notify cb : nat) :
  let self := Registry.run Registry.empty actions in
  (Registry._notifications self !! notify = Some cb ->
   Registry.live (Registry.native self) !! cb = Some notify)
  ∧ Registry._notifications (Registry.unregister_notification self notify) !! notify
    = None.
Proof.
  intros self. split.
  - apply (run_consistent actions Registry.empty consistent_empty).
  - unfold Registry.unregister_notification.
    destruct (Registry._notifications self !! notify) eqn:E; [|done].
    simpl. apply lookup_delete_eq.
Qed.

Lemma notifications_tracked_are_registered_witness :
  let self := Registry.run Registry.empty [Registry.Register 7; Registry.Register 3] in
  Registry.live (Registry.native self) !! 0%nat = Some 7%nat.
Proof.
  intros self.
  apply (proj1 (notifications_tracked_are_registered
                  [Registry.Register 7; Registry.Register 3] 7 0)).
  reflexivity.
Defined.

(** X14.  Registering an observer that has no live callback object and
    unregistering it again leaves the dictionary and the set of live
    callback objects as they were. *)
Theorem register_unregister_round_trip (actions : list Registry.action) (notify : nat) :
  let self := Registry.run Registry.empty actions in
  Registry._notifications self !! notify = None ->
  let self' :=
    Registry.unregister_notification
      (Registry.register_notification self notify) notify in
  Registry._notifications self' = Registry._notifications self
  ∧ Registry.live (Registry.native self') = Registry.live (Registry.native self).
Proof.
  intros self Hn self'.
  destruct (run_consistent actions Registry.empty consistent_empty) as [_ Hc].
  fold self in Hc.
  unfold self', Registry.unregister_notification, Registry.register_notification.
  simpl. rewrite lookup_insert_eq. simpl. split.
  - rewrite delete_insert_eq. by apply delete_id.
  - rewrite !live_snoc. simpl. rewrite delete_insert_eq. apply delete_id.
    destruct (Registry.live (Registry.native self) !! Registry.created self) eqn:E;
      [|done].
    apply Hc in E. lia.
Qed.

Lemma register_unregister_round_trip_witness :
  let self := Registry.run Registry.empty [Registry.Register 7] in
  let self' :=
    Registry.unregister_notification (Registry.register_notification self 3) 3 in
  Registry._notifications self' = Registry._notifications self
  ∧ Registry.live (Registry.native self') = Registry.live (Registry.native self).
Proof.
  apply (register_unregister_round_trip [Registry.Register 7] 3).
  reflexivity.
Defined.

(** X15.  Registering the same observer a second time replaces the
    tracked callback object without unregistering the first one: after
    two registrations and one [unregister_notification] the view tracks
    nothing for the observer, yet a callback object of it is still
    registered with the core. *)
Theorem double_registration_stays_registered (actions : list Registry.action)
    (notify : nat) :
  let self := Registry.run Registry.empty actions in
  let self' :=
    Registry.unregister_notification
      (Registry.register_notification
         (Registry.register_notification self notify) notify) notify in
  Registry._notifications self' !! notify = None
  ∧ Registry.live (Registry.native self') !! Registry.created self = Some notify.
Proof.
  intros self self'.
  unfold self', Registry.unregister_notification, Registry.register_notification.
  simpl. rewrite lookup_insert_eq. simpl. split.
  - apply lookup_delete_eq.
  - rewrite !live_snoc. simpl.
    rewrite lookup_delete_ne by lia. rewrite lookup_insert_ne by lia.
    apply lookup_insert_eq.
Qed.

(** ** The read callback *)

(** X16.  [_read] never reports or moves more bytes than the core asked
    for: the count it returns is the number of bytes it moved into the
    destination, at most [length], and the bytes moved are the first
    ones [perform_read] returned (all of them when they fit).  When
    [perform_read] returns [None] or raises, nothing is moved and the
    count is 0; only a raised exception is logged. *)
Theorem read_callback_fits_buffer (perform_read : Z -> Z -> Py.result (option View.bytes))
    (offset : Z) (length : N) :
  let '(count, moved, logged) := Wrappers._read perform_read offset length in
  count = Z.of_nat (List.length moved)
  ∧ 0 ≤ count ≤ Z.of_N length
  ∧ match perform_read offset (Z.of_N length) with
    | Py.Return (Some data) =>
        moved = take (N.to_nat length) data ∧ logged = []
    | Py.Return None => moved = [] ∧ logged = []
    | Py.Raise e => moved = [] ∧ logged = [Py.format_exc e]
    end.
Proof.
  unfold Wrappers._read.
  destruct (perform_read offset (Z.of_N length)) as [[data|]|e]; simpl;
    [|repeat split; lia..].
  destruct (Z.of_N length <? Z.of_nat (List.length data)) eqn:E.
  - rewrite length_take. repeat split; lia.
  - rewrite take_ge by lia. repeat split; lia.
Qed.

(** ** Dictionaries by name *)

Section ByNameFacts.
Import ByName.

Lemma symbols_snoc (syms : list named) (sym : named) :
  symbols (syms ++ [sym])
  = <[name sym := default [] (symbols syms !! name sym) ++ [sym]]> (symbols syms).
Proof. unfold symbols. by rewrite foldl_app. Qed.

Lemma tag_types_snoc (types : list named) (tag : named) :
  tag_types (types ++ [tag])
  = match tag_types types !! name tag with
    | Some (Several tags) => <[name tag := Several (tags ++ [tag])]> (tag_types types)
    | Some (Single first) => <[name tag := Several [first; tag]]> (tag_types types)
    | None => <[name tag := Single tag]> (tag_types types)
    end.
Proof. unfold tag_types. by rewrite foldl_app. Qed.

Lemma grouped_snoc (tags : list named) (tag : named) :
  grouped (tags ++ [tag])
  = Some match grouped tags with
         | Some (Several l) => Several (l ++ [tag])
         | Some (Single first) => Several [first; tag]
         | None => Single tag
         end.
Proof. by destruct tags as [|t1 [|t2 tags]]. Qed.

End ByNameFacts.

(** X17.  [symbols] maps a name to the symbols of that name, all of
    them and in the order of the core's list; a name no symbol has is
    not a key. *)
Theorem symbols_groups_by_name (syms : list ByName.named) (n : string) :
  ByName.symbols syms !! n
  = match filter (fun sym => ByName.name sym = n) syms with
    | [] => None
    | group => Some group
    end.
Proof.
  induction syms as [|sym syms IH] using rev_ind; [done|].
  rewrite symbols_snoc, filter_app, filter_cons, filter_nil.
  destruct (decide (ByName.name sym = n)) as [<-|Hn].
  - rewrite lookup_insert_eq, IH.
    destruct (filter _ syms) as [|s0 group]; by simpl.
  - rewrite lookup_insert_ne by done. rewrite IH.
    by rewrite app_nil_r.
Qed.

(** X18.  [tag_types] maps a name that exactly one tag type has to that
    tag type, and a name that several have to the list of all of them in
    the order of the core's list; a name no tag type has is not a
    key. *)
Theorem tag_types_groups_by_name (types : list ByName.named) (n : string) :
  ByName.tag_types types !! n
  = ByName.grouped (filter (fun tag => ByName.name tag = n) types).
Proof.
  induction types as [|tag types IH] using rev_ind; [done|].
  rewrite tag_types_snoc, filter_app, filter_cons, filter_nil.
  destruct (decide (ByName.name tag = n)) as [<-|Hn].
  - rewrite grouped_snoc, <- IH.
    destruct (ByName.tag_types types !! ByName.name tag) as [[first|tags]|];
      by rewrite lookup_insert_eq.
  - rewrite app_nil_r, <- IH.
    destruct (ByName.tag_types types !! ByName.name tag) as [[first|tags]|];
      by rewrite lookup_insert_ne.
Qed.

(** ** Disassembly from an address *)

Section DisasmFacts.
Import Py View Disasm.
Context {tokens : Type}.
Variable read : Z -> Z -> result bytes.
Variable arch : Architecture tokens.

Lemma address_of_cons (addr : Z) (item : tokens * Z) (items : list (tokens * Z))
    (k : nat) :
  address_of tokens addr (item :: items) (S k)
  = address_of tokens (addr + item.2) items k.
Proof. unfold address_of. rewrite <- Z.add_assoc. f_equal. Qed.

Lemma disassembly_loop_chain (fuel : nat) (addr : Z) (k : nat) (t : tokens) (size : Z) :
  (disassembly_loop tokens read arch fuel addr).1 !! k = Some (t, size) ->
  let a := address_of tokens addr (disassembly_loop tokens read arch fuel addr).1 k in
  size ≠ 0
  ∧ ∃ data, read a (max_instr_length tokens arch) = Return data
      ∧ get_instruction_text tokens arch data a = (Some t, size).
Proof.
  revert addr k. induction fuel as [|fuel IH]; intros addr k; simpl; [done|].
  destruct (read addr (max_instr_length tokens arch)) as [data|e] eqn:Er; [|done].
  destruct (get_instruction_text tokens arch data addr) as [[t0|] size0] eqn:Eg; [|done].
  destruct (size0 =? 0) eqn:Ez; [done|].
  destruct (disassembly_loop tokens read arch fuel (addr + size0)) as [rest e] eqn:El.
  destruct k as [|k]; simpl.
  - intros [= -> ->]. apply Z.eqb_neq in Ez. split; [done|]. exists data.
    unfold address_of. simpl. rewrite Z.add_0_r. by rewrite Er, Eg.
  - intros Hk. rewrite address_of_cons. simpl.
    specialize (IH (addr + size0) k). rewrite El in IH. by apply IH.
Qed.

(** More turns of the loop only add to what was yielded. *)
Lemma disassembly_loop_grows (fuel : nat) (addr : Z) :
  (disassembly_loop tokens read arch fuel addr).1
    `prefix_of` (disassembly_loop tokens read arch (S fuel) addr).1.
Proof.
  revert addr. induction fuel as [|fuel IH]; intros addr.
  - apply prefix_nil.
  - specialize (IH (addr + (get_instruction_text tokens arch
                              (match read addr (max_instr_length tokens arch) with
                               | Return d => d | Raise _ => [] end) addr).2)).
    cbn [disassembly_loop] in *.
    destruct (read addr (max_instr_length tokens arch)) as [data|e]; [|done].
    destruct (get_instruction_text tokens arch data addr) as [[t0|] size0]; [|done].
    destruct (size0 =? 0); [done|]. simpl in IH.
    destruct (disassembly_loop tokens read arch fuel (addr + size0)) as [rest e].
    destruct (read (addr + size0) (max_instr_length tokens arch)) as [data'|e']; simpl in *.
    + destruct (get_instruction_text tokens arch data' (addr + size0)) as [[t1|] size1];
        simpl in *; [|by apply prefix_cons].
      destruct (size1 =? 0); simpl in *; [by apply prefix_cons|].
      destruct (disassembly_loop tokens read arch fuel (addr + size0 + size1)) as [rest' e''].
      by apply prefix_cons.
    + by apply prefix_cons.
Qed.

End DisasmFacts.

(** X19.  [disassembly_tokens] walks the instructions one after the
    other: every pair it yields has a size that is not 0, and its [k]-th
    pair is what the architecture decodes from the bytes read at the
    start address plus the sizes of the pairs before it. *)
Theorem disassembly_tokens_chain (tokens : Type) (read : Z -> Z -> Py.result View.bytes)
    (self_arch arch : option (Disasm.Architecture tokens)) (fuel : nat) (addr : Z)
    (k : nat) (t : tokens) (size : Z) :
  let items := (Disasm.disassembly_tokens tokens read self_arch fuel addr arch).1 in
  items !! k = Some (t, size) ->
  size ≠ 0
  ∧ ∃ a data,
      (arch = Some a ∨ (arch = None ∧ self_arch = Some a))
      ∧ read (Disasm.address_of tokens addr items k) (Disasm.max_instr_length tokens a)
        = Py.Return data
      ∧ Disasm.get_instruction_text tokens a data (Disasm.address_of tokens addr items k)
        = (Some t, size).
Proof.
  unfold Disasm.disassembly_tokens.
  destruct arch as [a|]; [|destruct self_arch as [a|]; [|done]]; simpl; intros Hk.
  - destruct (disassembly_loop_chain read a fuel addr k t size Hk) as (Hs & data & Hr & Hg).
    split; [done|]. exists a, data. split; [by left|done].
  - destruct (disassembly_loop_chain read a fuel addr k t size Hk) as (Hs & data & Hr & Hg).
    split; [done|]. exists a, data. split; [by right|done].
Qed.

Lemma disassembly_tokens_chain_witness :
  let read := fun _ _ : Z => Py.Return [Byte.x90] in
  let a := Disasm.mk_arch string
             (fun _ addr => if addr <? 3 then (Some "nop", 1) else (None, 0)) 16 in
  let items := (Disasm.disassembly_tokens string read None 5 0 (Some a)).1 in
  1 ≠ 0
  ∧ ∃ a' data,
      (Some a = Some a' ∨ (Some a = None ∧ None = Some a'))
      ∧ read (Disasm.address_of string 0 items 2) (Disasm.max_instr_length string a')
        = Py.Return data
      ∧ Disasm.get_instruction_text string a' data (Disasm.address_of string 0 items 2)
        = (Some "nop", 1).
Proof.
  intros read a items.
  apply (disassembly_tokens_chain string read None (Some a) 5 0 2 "nop" 1).
  reflexivity.
Defined.

(** ** Functions by name *)

Section FunctionsFacts.
Import Functions.

Lemma collect_matching (P : Function -> bool) (l acc : list Function) :
  foldl (fun fns fn => if P fn then fns ++ [fn] else fns) acc l
  = acc ++ List.filter P l.
Proof.
  revert acc. induction l as [|fn l IH]; intros acc; simpl.
  - by rewrite app_nil_r.
  - rewrite IH. destruct (P fn); [|done]. by rewrite <- app_assoc.
Qed.

Lemma elem_of_list_filter_bool (P : Function -> bool) (l : list Function)
    (fn : Function) :
  fn ∈ List.filter P l ↔ fn ∈ l ∧ P fn = true.
Proof. rewrite !list_elem_of_In. apply filter_In. Qed.

Lemma collect_symbols (P : Function -> bool) (get_functions_at : Z -> list Function)
    (syms : list Symbol) (acc : list Function) (fn : Function) :
  fn ∈ foldl (fun fns sym =>
                foldl (fun fns fn => if P fn then fns ++ [fn] else fns)
                      fns (get_functions_at (address sym)))
             acc syms
  ↔ fn ∈ acc ∨ (P fn = true ∧ ∃ sym, sym ∈ syms ∧ fn ∈ get_functions_at (address sym)).
Proof.
  revert acc. induction syms as [|sym syms IH]; intros acc; simpl.
  - split; [by left|]. intros [?|(_ & sym & Hs & _)]; [done|]. by apply elem_of_nil in Hs.
  - rewrite IH, collect_matching, elem_of_app, elem_of_list_filter_bool.
    split.
    + intros [[?|[? ?]]|(? & s & ? & ?)]; [by left|right..].
      * split; [done|]. exists sym. split; [by left|done].
      * split; [done|]. exists s. split; [by right|done].
    + intros [?|(? & s & Hs & ?)]; [by left; left|].
      apply elem_of_cons in Hs as [->|Hs]; [by left; right|].
      right. split; [done|]. by exists s.
Qed.

End FunctionsFacts.

(** X20.  [get_functions_by_name] returns the functions that start at
    the address of a symbol of the name and whose platform is the one
    asked for, the view's when none is given.  The symbols are looked up
    with the three function symbol types whenever any [ordered_filter]
    is passed, whatever it lists, and without a filter when none is
    passed. *)
Theorem get_functions_by_name_result (self_platform : option nat)
    (get_symbols_by_name : string -> option (list Functions.SymbolType)
                           -> list Functions.Symbol)
    (get_functions_at : Z -> list Functions.Function)
    (name : string) (plat : option nat)
    (ordered_filter : option (list Functions.SymbolType)) (fn : Functions.Function) :
  fn ∈ Functions.get_functions_by_name self_platform get_symbols_by_name
         get_functions_at name plat ordered_filter
  ↔ Functions.platform fn = (match plat with Some p => Some p | None => self_platform end)
    ∧ ∃ sym,
        sym ∈ get_symbols_by_name name
                (match ordered_filter with
                 | Some _ => Some [Functions.FunctionSymbol;
                                   Functions.ImportedFunctionSymbol;
                                   Functions.LibraryFunctionSymbol]
                 | None => None
                 end)
        ∧ fn ∈ get_functions_at (Functions.address sym).
Proof.
  unfold Functions.get_functions_by_name.
  rewrite (collect_symbols (fun fn => bool_decide (Functions.platform fn = _))).
  rewrite bool_decide_eq_true.
  assert ((if bool_decide (plat = None) then self_platform else plat)
          = match plat with Some p => Some p | None => self_platform end) as ->
    by by destruct plat.
  destruct ordered_filter as [flt|];
    (split; [intros [Hn|H]; [by apply elem_of_nil in Hn|done]|by right]).
Qed.

(** ** The notification wrappers *)

(** X21.  Every notification wrapper other than [_data_written] returns
    normally whatever happens inside it: an exception raised by the
    observer's method, or while the arguments are wrapped, is caught,
    and exactly one line with its traceback is logged; when nothing is
    raised, nothing is logged. *)
Theorem wrappers_contain_exceptions
    (wrap : Notify.event_kind -> Notify.payload -> Py.result Notify.payload)
    (o : Notify.BinaryDataNotification) (k : Notify.event_kind)
    (p : Notify.payload) (w : Notify.world) :
  k ≠ Notify.data_written ->
  (Notify.callback wrap o k p w).1 = Py.Return tt
  ∧ Notify.diag_log (Notify.callback wrap o k p w).2
    = Notify.diag_log w
      ++ match Notify.marshal wrap k p with
         | Py.Raise e => [Py.format_exc e]
         | Py.Return args =>
             match Notify.obs_method o k args with
             | Py.Raise e => [Py.format_exc e]
             | Py.Return _ => []
             end
         end.
Proof.
  intros Hk. split; [by apply callback_returns|].
  unfold Notify.callback, Notify.try_log. rewrite (clause_of_bare k Hk).
  destruct (Notify.marshal wrap k p) as [args|e]; simpl; [|done].
  destruct (Notify.obs_method o k args) as [[]|e]; simpl; [|done].
  by rewrite app_nil_r.
Qed.

Lemma wrappers_contain_exceptions_witness :
  let e := Py.mk_exn Py.KeyboardInterrupt "stop" in
  let w := Notify.mk_world [] [] in
  (Notify.callback (fun _ p => Py.Return p) (Notify.always_raises 0 e)
     Notify.symbol_added [1; 2] w).1 = Py.Return tt
  ∧ Notify.diag_log
      (Notify.callback (fun _ p => Py.Return p) (Notify.always_raises 0 e)
         Notify.symbol_added [1; 2] w).2
    = [] ++ [Py.format_exc e].
Proof.
  intros e w.
  apply (wrappers_contain_exceptions (fun _ p => Py.Return p)
           (Notify.always_raises 0 e) Notify.symbol_added [1; 2] w).
  discriminate.
Defined.
